(** * node-docs: static extraction of node documentation

    A shallow embedding of [node-docs.py]: the [DocExtractor] class that
    walks the syntax trees of a directory of Python modules, registers the
    classes decorated with [invocation_output], builds a [NodeInfo] for every
    class decorated with [invocation], and sorts the result by title.

    Conventions of the embedding.
    - A Python [str] is a Rocq [string]; its characters are the code points
      below 256, on which [str.lower], [str.strip] and [<] are written out.
    - The syntax tree is the one [ast.parse] returns.  Expression nodes are
      [expr]; statement-level nodes are [node].  Node classes the program
      never tests for are kept as [OtherExpr] / [OtherNode].
    - [self] is the record [DocExtractor], passed explicitly.  An exception
      is a value of [result]; the file system and the parser are inputs
      ([dir_entry], [file_outcome]).
    - The interpreter's digit limit on [str] of an integer is the one way
      the renderers can raise; the module [DigitLimit] gives them with it,
      and [small_ints] marks the trees on which it plays no part.  The
      recursion depth of the interpreter is not part of the model. *)

From Stdlib Require Import List String Ascii Bool Arith ZArith Lia.
From Stdlib Require Import DecimalString Permutation Sorted.
Import ListNotations.
Local Open Scope string_scope.
Local Open Scope list_scope.

Set Implicit Arguments.
Set Warnings "-register-all".


(** ** Python strings *)

Module PyStr.

Definition newline : ascii := "010"%char.

(** [sep.join(parts)] *)
Definition join (sep : string) (parts : list string) : string :=
  String.concat sep parts.

(** [c.lower()] on one code point below 256: the Latin capital letters
    [A]..[Z] and [U+00C0]..[U+00DE] without [U+00D7]. *)
Definition lower_char (c : ascii) : ascii :=
  let n := nat_of_ascii c in
  if (((65 <=? n) && (n <=? 90))
      || ((192 <=? n) && (n <=? 222) && negb (n =? 215)))%nat
  then ascii_of_nat (n + 32) else c.

(** [s.lower()] *)
Fixpoint lower (s : string) : string :=
  match s with
  | EmptyString => EmptyString
  | String c rest => String (lower_char c) (lower rest)
  end.

(** [c.isspace()] on one code point below 256. *)
Definition isspace (c : ascii) : bool :=
  let n := nat_of_ascii c in
  (((9 <=? n) && (n <=? 13)) || ((28 <=? n) && (n <=? 32))
   || (n =? 133) || (n =? 160))%nat.

Fixpoint lstrip (s : string) : string :=
  match s with
  | EmptyString => EmptyString
  | String c rest => if isspace c then lstrip rest else s
  end.

(** Drops trailing white space: a suffix made of spaces only vanishes. *)
Fixpoint rstrip (s : string) : string :=
  match s with
  | EmptyString => EmptyString
  | String c rest =>
      match rstrip rest with
      | EmptyString => if isspace c then EmptyString else String c EmptyString
      | kept => String c kept
      end
  end.

(** [s.strip()] *)
Definition strip (s : string) : string := rstrip (lstrip s).

(** [s.split('\n', 1)]: the text before the first line feed and, when
    there is a line feed, the text after it. *)
Fixpoint split_newline (s : string) : string * option string :=
  match s with
  | EmptyString => (EmptyString, None)
  | String c rest =>
      if Ascii.eqb c newline then (EmptyString, Some rest)
      else let '(first, more) := split_newline rest in
           (String c first, more)
  end.

(** [s.endswith(suffix)] *)
Definition endswith (s suffix : string) : bool :=
  (String.length suffix <=? String.length s)%nat
  && String.eqb
       (substring (String.length s - String.length suffix)
                  (String.length suffix) s)
       suffix.

(** [s1 < s2]: lexicographic on code points. *)
Definition lt (s1 s2 : string) : bool := String.ltb s1 s2.

(** [bool(s)] *)
Definition truthy (s : string) : bool :=
  match s with EmptyString => false | _ => true end.

End PyStr.

(** ** The syntax tree *)

(** The value carried by an [ast.Constant].  For [float], [complex] and
    [bytes] the constructor carries the text that [str] gives for it. *)
Inductive constant : Type :=
| CNone
| CBool (b : bool)
| CInt (n : Z)
| CFloat (text : string)
| CComplex (text : string)
| CStr (s : string)
| CBytes (text : string)
| CEllipsis.

(** The text of [str(value)] for the value of a constant; whether [str]
    returns at all on a long integer is the matter of [DigitLimit], further
    down. *)
Definition py_str (value : constant) : string :=
  match value with
  | CNone => "None"
  | CBool true => "True"
  | CBool false => "False"
  | CInt n => NilZero.string_of_int (Z.to_int n)
  | CFloat text => text
  | CComplex text => text
  | CStr s => s
  | CBytes text => text
  | CEllipsis => "Ellipsis"
  end.

(** Expression nodes.  [Index] is the wrapper that Python 3.8 puts around
    the slice of a [Subscript]; from Python 3.9 on the slice is the
    expression itself.  A keyword is [(arg, value)], with [arg = None] for
    [**kwargs]; a [Dict] key is [None] for [**mapping]. *)
Inductive expr : Type :=
| Name (id : string)
| Constant (value : constant)
| Attribute (value : expr) (attr : string)
| Subscript (value : expr) (slice : expr)
| Index (value : expr)
| Tuple (elts : list expr)
| List (elts : list expr)
| Dict (keys : list (option expr)) (values : list expr)
| Call (func : expr) (args : list expr) (keywords : list (option string * expr))
| OtherExpr (cls : string).

(** [type(e).__name__] *)
Definition expr_class (e : expr) : string :=
  match e with
  | Name _ => "Name"
  | Constant _ => "Constant"
  | Attribute _ _ => "Attribute"
  | Subscript _ _ => "Subscript"
  | Index _ => "Index"
  | Tuple _ => "Tuple"
  | List _ => "List"
  | Dict _ _ => "Dict"
  | Call _ _ _ => "Call"
  | OtherExpr cls => cls
  end.

(** Statement-level nodes, with the fields the program reads.  [OtherNode]
    stands for every other node that can hold statements ([If], [Try] and
    its handlers, [AsyncFunctionDef], ...), with its statement children in
    field order. *)
Inductive node : Type :=
| Module (body : list node)
| ClassDef (name : string) (body : list node) (decorator_list : list expr)
| FunctionDef (name : string) (body : list node)
              (decorator_list : list expr) (returns : option expr)
| AnnAssign (target : expr) (annotation : expr) (value : option expr)
| Expr (value : expr)
| Return (value : option expr)
| OtherNode (cls : string) (children : list node).

(** [ast.iter_child_nodes], restricted to statement-level children:
    expressions hold no statements, and every caller of [ast.walk] skips
    them by its [isinstance] test. *)
Definition iter_child_nodes (n : node) : list node :=
  match n with
  | Module body => body
  | ClassDef _ body _ => body
  | FunctionDef _ body _ _ => body
  | OtherNode _ children => children
  | AnnAssign _ _ _ | Expr _ | Return _ => []
  end.

Fixpoint node_count (n : node) : nat :=
  match n with
  | Module body => S (list_sum (map node_count body))
  | ClassDef _ body _ => S (list_sum (map node_count body))
  | FunctionDef _ body _ _ => S (list_sum (map node_count body))
  | OtherNode _ children => S (list_sum (map node_count children))
  | AnnAssign _ _ _ | Expr _ | Return _ => 1
  end.

(** [setup_ast_parent_links] gives every node its [parent]; the walk
    carries that link next to the node. *)
Definition linked : Type := (node * option node)%type.

Definition link_children (n : node) : list linked :=
  map (fun child => (child, Some n)) (iter_child_nodes n).

(** The loop of [ast.walk]: pop the left end of [todo], push the children
    at the right end, yield the node.  [fuel] bounds the number of nodes
    still to be yielded. *)
Fixpoint walk_todo (fuel : nat) (todo : list linked) : list linked :=
  match fuel, todo with
  | S fuel', (n, parent) :: rest =>
      (n, parent) :: walk_todo fuel' (rest ++ link_children n)
  | _, _ => []
  end.

Definition ast_walk_links (parent : option node) (root : node) : list linked :=
  walk_todo (node_count root) [(root, parent)].

(** [ast.walk(root)] *)
Definition ast_walk (root : node) : list node :=
  map fst (ast_walk_links None root).

(** ** Expression renderer *)

(** [DocExtractor._get_type_annotation] *)
Fixpoint _get_type_annotation (n : expr) : string :=
  match n with
  | Name id => id
  | Subscript value slice =>
      let base := _get_type_annotation value in
      match slice with
      | Index slice_value =>
          match slice_value with
          | Tuple elts =>
              let params := map _get_type_annotation elts in
              base ++ "[" ++ PyStr.join ", " params ++ "]"
          | _ => base ++ "[" ++ _get_type_annotation slice_value ++ "]"
          end
      | _ => base ++ "[" ++ _get_type_annotation slice ++ "]"
      end
  | Attribute value attr =>
      let value := _get_type_annotation value in
      value ++ "." ++ attr
  | Constant value => py_str value
  | Tuple elts =>
      "(" ++ PyStr.join ", " (map _get_type_annotation elts) ++ ")"
  | Call (Name func_name) args _ =>
      let args := map _get_type_annotation args in
      func_name ++ "(" ++ PyStr.join ", " args ++ ")"
  | _ => "Any"
  end.

(** [zip(keys, values)] rendered as [f'{k}: {v}'] *)
Fixpoint zip_pairs (keys values : list string) : list string :=
  match keys, values with
  | k :: keys', v :: values' =>
      (k ++ ": " ++ v)%string :: zip_pairs keys' values'
  | _, _ => []
  end.

(** [DocExtractor._get_default_value]; a [None] key of a [Dict] is no node
    at all and takes the last line. *)
Fixpoint _get_default_value (n : expr) : string :=
  match n with
  | Constant value => py_str value
  | Name id => id
  | List elts =>
      "[" ++ PyStr.join ", " (map _get_default_value elts) ++ "]"
  | Dict keys values =>
      let keys :=
        map (fun k => match k with
                      | Some k => _get_default_value k
                      | None => "None"
                      end) keys in
      let values := map _get_default_value values in
      "{" ++ PyStr.join ", " (zip_pairs keys values) ++ "}"
  | Call (Name func_name) args _ =>
      let args := map _get_default_value args in
      func_name ++ "(" ++ PyStr.join ", " args ++ ")"
  | _ => "None"
  end.

(** [DocExtractor._get_string_value] *)
Definition _get_string_value (n : expr) : string :=
  match n with
  | Constant (CStr value) => value
  | _ => ""
  end.

(** [DocExtractor._get_list_values] *)
Definition _get_list_values (n : expr) : list string :=
  match n with
  | List elts => map _get_string_value elts
  | _ => []
  end.

(** [DocExtractor._extract_return_type_from_decorator] *)
Definition _extract_return_type_from_decorator (n : expr) : string :=
  match n with
  | Call (Name id) (arg0 :: _) _ =>
      if id =? "returns" then _get_type_annotation arg0 else ""
  | _ => ""
  end.

(** ** Records of the extractor *)

(** An entry of an output definition's [fields]: the dictionary with keys
    ["name"], ["type"], ["description"].  The description is the constant's
    value as it stands, so it need not be a string. *)
Module OutputField.
Record t : Type := mk
  { name : string; type : string; description : constant }.
End OutputField.

(** An entry of [NodeInfo.inputs]: as above, with ["default"]. *)
Module InputField.
Record t : Type := mk
  { name : string; type : string; description : constant;
    default : string }.
End InputField.

(** [NodeInfo.output]: the dictionary with keys ["type"] and ["fields"]. *)
Module Output.
Record t : Type := mk
  { type : string; fields : list OutputField.t }.
End Output.

Module OutputDefinitionInfo.
Record t : Type := mk
  { name : string; fields : list OutputField.t }.
End OutputDefinitionInfo.

Module FunctionInfo.
Record t : Type := mk
  { name : string; description : string }.
End FunctionInfo.

Module NodeInfo.
Record t : Type := mk
  { name : string;
    title : string;
    description : string;
    long_description : string;
    category : string;
    tags : list string;
    version : string;
    inputs : list InputField.t;
    output : Output.t }.

(** [NodeInfo.__lt__] *)
Definition __lt__ (self other : t) : bool :=
  PyStr.lt (PyStr.lower (title self)) (PyStr.lower (title other)).
End NodeInfo.

(** ** Python containers *)

(** A [dict] with string keys: the items in insertion order, one per key. *)
Module PyDict.
Section Dict.
Variable V : Type.

Definition t : Type := list (string * V).

(** [d[k] = v]: a key already present keeps its place. *)
Fixpoint set (k : string) (v : V) (d : t) : t :=
  match d with
  | [] => [(k, v)]
  | (k', v') :: rest =>
      if (k' =? k)%string then (k', v) :: rest
      else (k', v') :: set k v rest
  end.

(** [d[k]] when [k in d], else [None]. *)
Fixpoint get (k : string) (d : t) : option V :=
  match d with
  | [] => None
  | (k', v') :: rest => if (k' =? k)%string then Some v' else get k rest
  end.

(** The keys as [d.items()] enumerates them. *)
Definition keys (d : t) : list string := map fst d.
End Dict.
End PyDict.

(** [list.sort()] is stable and compares through [__lt__] only; it is
    modelled by the insertion sort that puts an element in front of the
    first one not smaller than it. *)
Section ListSort.
Variable A : Type.
Variable lt : A -> A -> bool.

Fixpoint insort (x : A) (l : list A) : list A :=
  match l with
  | [] => [x]
  | y :: rest => if lt y x then y :: insort x rest else x :: y :: rest
  end.

Definition list_sort (l : list A) : list A := fold_right insort [] l.
End ListSort.

(** ** Exceptions *)

Inductive exn : Type :=
| AttributeError (cls attr : string).

(** [str(e)] *)
Definition exn_str (e : exn) : string :=
  match e with
  | AttributeError cls attr =>
      "'" ++ cls ++ "' object has no attribute '" ++ attr ++ "'"
  end.

Inductive result (A : Type) : Type :=
| Ok (a : A)
| Raise (e : exn).
Arguments Ok {A} a.
Arguments Raise {A} e.

Definition bind {A B : Type} (r : result A) (k : A -> result B) : result B :=
  match r with
  | Ok a => k a
  | Raise e => Raise e
  end.

Notation "x <- r ;; k" := (bind r (fun x => k))
  (at level 61, r at next level, right associativity).

(** A [for] loop whose body may raise: the first exception ends it. *)
Fixpoint for_each {S A : Type} (body : S -> A -> result S)
         (s : S) (items : list A) : result S :=
  match items with
  | [] => Ok s
  | item :: rest => s' <- body s item ;; for_each body s' rest
  end.

(** ** DocExtractor *)

(** The attributes of [self], and next to them the lines printed to
    [sys.stderr] so far. *)
Record DocExtractor : Type := mkDocExtractor
  { directory : string;
    nodes : list NodeInfo.t;
    functions : list FunctionInfo.t;
    output_defs : PyDict.t OutputDefinitionInfo.t;
    stderr : list string }.

(** [DocExtractor.__init__] *)
Definition __init__ (directory : string) : DocExtractor :=
  {| directory := directory; nodes := []; functions := [];
     output_defs := []; stderr := [] |}.

Definition with_nodes (self : DocExtractor) (l : list NodeInfo.t) :=
  {| directory := directory self; nodes := l; functions := functions self;
     output_defs := output_defs self; stderr := stderr self |}.

Definition with_functions (self : DocExtractor) (l : list FunctionInfo.t) :=
  {| directory := directory self; nodes := nodes self; functions := l;
     output_defs := output_defs self; stderr := stderr self |}.

Definition with_output_defs (self : DocExtractor)
           (d : PyDict.t OutputDefinitionInfo.t) :=
  {| directory := directory self; nodes := nodes self;
     functions := functions self; output_defs := d; stderr := stderr self |}.

(** [print(line, file=sys.stderr)] *)
Definition print_stderr (self : DocExtractor) (line : string) :=
  {| directory := directory self; nodes := nodes self;
     functions := functions self; output_defs := output_defs self;
     stderr := stderr self ++ [line] |}.

(** The test both class processors make on a decorator:
    [isinstance(decorator, ast.Call) and isinstance(decorator.func, ast.Name)
     and decorator.func.id == marker]. *)
Definition is_marker (marker : string) (decorator : expr) : bool :=
  match decorator with
  | Call (Name id) _ _ => (id =? marker)%string
  | _ => false
  end.

(** [item.target.id if isinstance(item.target, ast.Name) else None] *)
Definition target_name (target : expr) : option string :=
  match target with
  | Name id => Some id
  | _ => None
  end.

(** One turn of the keyword loop of an output field. *)
Definition output_keyword (description : constant)
           (kw : option string * expr) : constant :=
  match kw with
  | (Some arg, Constant value) =>
      if (arg =? "description")%string then value else description
  | _ => description
  end.

(** The body of the loop over [node.body] in
    [_process_output_definition]: the fields appended for one item. *)
Definition output_field (item : node) : list OutputField.t :=
  match item with
  | AnnAssign target annotation value =>
      let field_name := target_name target in
      let field_type := _get_type_annotation annotation in
      let description :=
        match value with
        | Some (Call _ _ keywords) =>
            fold_left output_keyword keywords (CStr "")
        | _ => CStr ""
        end in
      match field_name with
      | Some field_name =>
          if PyStr.truthy field_name
          then [OutputField.mk field_name field_type description]
          else []
      | None => []
      end
  | _ => []
  end.

(** [DocExtractor._process_output_definition], on the fields of the
    [ClassDef] it is given.  The loop over the decorators stops at the first
    marker and does not read it. *)
Definition _process_output_definition (self : DocExtractor)
           (name : string) (body : list node) (decorator_list : list expr)
  : DocExtractor :=
  if existsb (is_marker "invocation_output") decorator_list then
    let fields := flat_map output_field body in
    with_output_defs self
      (PyDict.set name (OutputDefinitionInfo.mk name fields)
                  (output_defs self))
  else self.

(** The keyword arguments of the [invocation] decorator, as the loop over
    [decorator.keywords] leaves them. *)
Record marker_keywords : Type := mkMarkerKeywords
  { kw_title : string; kw_category : string;
    kw_tags : list string; kw_version : string }.

Definition marker_keyword (acc : marker_keywords)
           (keyword : option string * expr) : marker_keywords :=
  let '(arg, value) := keyword in
  match arg with
  | Some arg =>
      if (arg =? "title")%string then
        mkMarkerKeywords (_get_string_value value) (kw_category acc)
                         (kw_tags acc) (kw_version acc)
      else if (arg =? "category")%string then
        mkMarkerKeywords (kw_title acc) (_get_string_value value)
                         (kw_tags acc) (kw_version acc)
      else if (arg =? "tags")%string then
        mkMarkerKeywords (kw_title acc) (kw_category acc)
                         (_get_list_values value) (kw_version acc)
      else if (arg =? "version")%string then
        mkMarkerKeywords (kw_title acc) (kw_category acc)
                         (kw_tags acc) (_get_string_value value)
      else acc
  | None => acc
  end.

(** The docstring of a class: [(node_description, long_description)]. *)
Definition class_docstring (body : list node) : string * string :=
  match body with
  | Expr (Constant (CStr value)) :: _ =>
      let docstring := PyStr.strip value in
      if PyStr.truthy docstring then
        let '(first, more) := PyStr.split_newline docstring in
        (PyStr.strip first,
         match more with
         | Some rest => PyStr.strip rest
         | None => ""
         end)
      else ("", "")
  | _ => ("", "")
  end.

(** One turn of the keyword loop of an input field, on
    [(description, default)]. *)
Definition input_keyword (acc : constant * string)
           (kw : option string * expr) : constant * string :=
  let '(description, default) := acc in
  match kw with
  | (Some arg, Constant value) =>
      if (arg =? "description")%string then (value, default)
      else if (arg =? "default")%string
           then (description, _get_default_value (Constant value))
           else acc
  | (Some arg, value) =>
      if (arg =? "default")%string
      then (description, _get_default_value value)
      else acc
  | (None, _) => acc
  end.

(** The body of the loop over [node.body] that collects [inputs]. *)
Definition input_field (item : node) : list InputField.t :=
  match item with
  | AnnAssign target annotation value =>
      let field_name := target_name target in
      let field_type := _get_type_annotation annotation in
      let '(description, default) :=
        match value with
        | Some (Call _ _ keywords) =>
            fold_left input_keyword keywords (CStr "", "None")
        | _ => (CStr "", "None")
        end in
      match field_name with
      | Some field_name =>
          if PyStr.truthy field_name
          then [InputField.mk field_name field_type description default]
          else []
      | None => []
      end
  | _ => []
  end.

(** The first [FunctionDef] named [invoke] among the class's own
    statements. *)
Definition is_invoke (item : node) : bool :=
  match item with
  | FunctionDef name _ _ _ => (name =? "invoke")%string
  | _ => false
  end.

Definition find_invoke (body : list node) : option node :=
  find is_invoke body.

(** [return_type] as [_process_invocation] computes it from the decorators
    and the annotation of [invoke]; nothing reads it afterwards. *)
Definition invoke_return_type (decorator_list : list expr)
           (returns : option expr) : string :=
  let return_type :=
    fold_left
      (fun return_type decorator =>
         match decorator with
         | Name id =>
             if (id =? "returns")%string
             then _extract_return_type_from_decorator decorator
             else return_type
         | _ => return_type
         end)
      decorator_list "" in
  match returns with
  | Some annotation =>
      if PyStr.truthy return_type then return_type
      else _get_type_annotation annotation
  | None => return_type
  end.

(** The body of the loop over [ast.walk(invoke_method)]: [output] after
    one item.  [item.value.func.value.id] raises when the base of the
    attribute access is not a [Name]. *)
Definition return_output (defs : PyDict.t OutputDefinitionInfo.t)
           (output : Output.t) (item : node) : result Output.t :=
  match item with
  | Return (Some (Call func _ _)) =>
      match func with
      | Name output_class =>
          match PyDict.get output_class defs with
          | Some def =>
              Ok (Output.mk output_class (OutputDefinitionInfo.fields def))
          | None => Ok (Output.mk output_class [])
          end
      | Attribute value attr =>
          match value with
          | Name id => Ok (Output.mk (id ++ "." ++ attr ++ "(...)") [])
          | _ => Raise (AttributeError (expr_class value) "id")
          end
      | _ => Ok output
      end
  | _ => Ok output
  end.

(** The output information of a class body. *)
Definition extract_output (defs : PyDict.t OutputDefinitionInfo.t)
           (body : list node) : result Output.t :=
  let output := Output.mk "" [] in
  match find_invoke body with
  | Some (FunctionDef _ _ decorator_list returns as invoke_method) =>
      let return_type := invoke_return_type decorator_list returns in
      for_each (return_output defs) output (ast_walk invoke_method)
  | _ => Ok output
  end.

(** The [NodeInfo] built for a class whose first marker is [decorator]. *)
Definition build_node_info (defs : PyDict.t OutputDefinitionInfo.t)
           (decorator : expr) (body : list node) : result NodeInfo.t :=
  match decorator with
  | Call _ args keywords =>
      let name :=
        match args with
        | arg0 :: _ => _get_string_value arg0
        | [] => ""
        end in
      let kws :=
        fold_left marker_keyword keywords (mkMarkerKeywords "" "" [] "") in
      let '(node_description, long_description) := class_docstring body in
      let inputs := flat_map input_field body in
      output <- extract_output defs body ;;
      Ok (NodeInfo.mk name (kw_title kws) node_description long_description
                      (kw_category kws) (kw_tags kws) (kw_version kws)
                      inputs output)
  | _ => Raise (AttributeError (expr_class decorator) "args")
  end.

(** [DocExtractor._process_invocation], on the fields of the [ClassDef]. *)
Definition _process_invocation (self : DocExtractor)
           (name : string) (body : list node) (decorator_list : list expr)
  : result DocExtractor :=
  match find (is_marker "invocation") decorator_list with
  | Some decorator =>
      node_info <- build_node_info (output_defs self) decorator body ;;
      Ok (with_nodes self (nodes self ++ [node_info]))
  | None => Ok self
  end.

(** The docstring summary of a function. *)
Definition function_docstring (body : list node) : string :=
  match body with
  | Expr (Constant (CStr value)) :: _ =>
      let docstring := PyStr.strip value in
      if PyStr.truthy docstring
      then PyStr.strip (fst (PyStr.split_newline docstring))
      else ""
  | _ => ""
  end.

(** [DocExtractor._process_function] *)
Definition _process_function (self : DocExtractor)
           (name : string) (body : list node) : DocExtractor :=
  let function_name := name in
  let description := function_docstring body in
  with_functions self
    (functions self ++ [FunctionInfo.mk function_name description]).

(** What reading and parsing one file gives: [open]/[read] raised,
    [ast.parse] raised (both with the text of the exception), or the tree. *)
Inductive file_outcome : Type :=
| ReadError (message : string)
| ParseError (message : string)
| Parsed (tree : node).

(** The body of the first loop of [_process_file]. *)
Definition first_pass_visit (self : DocExtractor) (n : node) : DocExtractor :=
  match n with
  | ClassDef name body decorator_list =>
      _process_output_definition self name body decorator_list
  | _ => self
  end.

(** The body of the second loop of [_process_file]. *)
Definition second_pass_visit (self : DocExtractor) (item : linked)
  : result DocExtractor :=
  match item with
  | (ClassDef name body decorator_list, _) =>
      _process_invocation self name body decorator_list
  | (FunctionDef name body _ _, Some (Module _)) =>
      Ok (_process_function self name body)
  | _ => Ok self
  end.

(** The second loop: [self] keeps what was appended before an exception. *)
Fixpoint second_pass (self : DocExtractor) (items : list linked)
  : DocExtractor * option exn :=
  match items with
  | [] => (self, None)
  | item :: rest =>
      match second_pass_visit self item with
      | Ok self' => second_pass self' rest
      | Raise e => (self, Some e)
      end
  end.

Definition first_pass (self : DocExtractor) (tree : node) : DocExtractor :=
  fold_left first_pass_visit (ast_walk tree) self.

(** [DocExtractor._process_file], from the outcome of [ast.parse(content)]. *)
Definition _process_file (self : DocExtractor)
           (parsed : string + node) (filepath : string) : DocExtractor :=
  match parsed with
  | inl message =>
      print_stderr self ("Error parsing " ++ filepath ++ ": " ++ message)
  | inr tree =>
      let self := first_pass self tree in
      match second_pass self (ast_walk_links None tree) with
      | (self, None) => self
      | (self, Some e) =>
          print_stderr self
            ("Error parsing " ++ filepath ++ ": " ++ exn_str e)
      end
  end.

(** [os.path.join(directory, filename)] (POSIX). *)
Definition os_path_join (directory filename : string) : string :=
  if prefix "/" filename then filename
  else if negb (PyStr.truthy directory) || PyStr.endswith directory "/"
       then directory ++ filename
       else directory ++ "/" ++ filename.

(** An entry of [os.listdir(self.directory)] with what the file holds. *)
Record dir_entry : Type := mkEntry
  { filename : string; outcome : file_outcome }.

(** The body of the loop of [extract_docs]. *)
Definition extract_file (self : DocExtractor) (entry : dir_entry)
  : DocExtractor :=
  if PyStr.endswith (filename entry) ".py" then
    let filepath := os_path_join (directory self) (filename entry) in
    match outcome entry with
    | ReadError message =>
        print_stderr self
          ("Error processing " ++ filepath ++ ": " ++ message)
    | ParseError message => _process_file self (inl message) filepath
    | Parsed tree => _process_file self (inr tree) filepath
    end
  else self.

(** The loop of [extract_docs], before the sort. *)
Definition scan_directory (self : DocExtractor) (listdir : list dir_entry)
  : DocExtractor :=
  fold_left extract_file listdir self.

(** [DocExtractor.extract_docs] *)
Definition extract_docs (self : DocExtractor) (listdir : list dir_entry)
  : DocExtractor :=
  let self := scan_directory self listdir in
  with_nodes self (list_sort NodeInfo.__lt__ (nodes self)).

(** ** Vocabulary of the statements *)

(** [a] is not after [b]: [b < a] does not hold. *)
Definition not_after {A : Type} (lt : A -> A -> bool) (a b : A) : Prop :=
  lt b a = false.

(** The nodes still to be yielded from a queue of [ast.walk]. *)
Definition todo_count (todo : list linked) : nat :=
  list_sum (map (fun item => node_count (fst item)) todo).

(** The nodes of a tree, every parent before its children. *)
Fixpoint subnodes (n : node) : list node :=
  n :: match n with
       | Module body => flat_map subnodes body
       | ClassDef _ body _ => flat_map subnodes body
       | FunctionDef _ body _ _ => flat_map subnodes body
       | OtherNode _ children => flat_map subnodes children
       | AnnAssign _ _ _ | Expr _ | Return _ => []
       end.

(** A class declaration that carries the marker [marker]. *)
Definition has_marker (marker : string) (n : node) : bool :=
  match n with
  | ClassDef _ _ decorator_list => existsb (is_marker marker) decorator_list
  | _ => false
  end.

(** The class declarations with the [invocation] marker in the modules of
    a directory listing that [extract_docs] parses. *)
Definition marked_classes (listdir : list dir_entry) : list node :=
  flat_map
    (fun entry =>
       match outcome entry with
       | Parsed tree =>
           if PyStr.endswith (filename entry) ".py"
           then filter (has_marker "invocation") (ast_walk tree)
           else []
       | _ => []
       end)
    listdir.




(** A [return] of a call whose target is an attribute access on something
    other than a name, as in [return a.b.c(...)]. *)
Definition nested_attribute_return (item : node) : bool :=
  match item with
  | Return (Some (Call (Attribute (Name _) _) _ _)) => false
  | Return (Some (Call (Attribute _ _) _ _)) => true
  | _ => false
  end.

(** Two states of the extractor hold the same records; the lines on
    [sys.stderr] may differ. *)
Definition same_records (a b : DocExtractor) : Prop :=
  directory a = directory b /\ nodes a = nodes b
  /\ functions a = functions b /\ output_defs a = output_defs b.



(** No keyword of the list is named [arg]. *)
Definition lacks_keyword (arg : string)
           (keywords : list (option string * expr)) : bool :=
  forallb (fun kw => match fst kw with
                     | Some arg' => negb (arg' =? arg)%string
                     | None => true
                     end) keywords.

(** ** Sample modules

    Small syntax trees, written as [ast.parse] builds them, on which the
    statements below are run. *)
Module Samples.

Definition field_call (kws : list (option string * expr)) : expr :=
  Call (Name "InputField") [] kws.

(** [@invocation_output("out") class Out: x: int = OutputField(description="the x")] *)
Definition out_class : node :=
  ClassDef "Out"
    [AnnAssign (Name "x") (Name "int")
       (Some (Call (Name "OutputField") []
                [(Some "description", Constant (CStr "the x"))]))]
    [Call (Name "invocation_output") [Constant (CStr "out")] []].

(** The same class name with another field. *)
Definition out_class_again : node :=
  ClassDef "Out"
    [AnnAssign (Name "y") (Name "str") None]
    [Call (Name "invocation_output") [Constant (CStr "out")] []].

(** [@invocation_output("other") class Other: z: float] *)
Definition other_class : node :=
  ClassDef "Other"
    [AnnAssign (Name "z") (Name "float") None]
    [Call (Name "invocation_output") [Constant (CStr "other")] []].

(** [def invoke(self, context): return <returned>(...)], one [return]
    per element of [returned]. *)
Definition invoke_method (returned : list expr) : node :=
  FunctionDef "invoke"
    (map (fun func => Return (Some (Call func [] []))) returned)
    [] None.

(** The statements of a unit of work: docstring, one input field and
    [invoke]. *)
Definition unit_body (returned : list expr) : list node :=
  [Expr (Constant (CStr "Adds things.
Longer text. "));
   AnnAssign (Name "a") (Name "int")
     (Some (field_call [(Some "default", Constant (CInt 1));
                        (Some "description", Constant (CStr "left"))]));
   invoke_method returned].

(** [@invocation(name, title=title, tags=["math"], version="1.0.0")] *)
Definition unit_marker (name title : string) : expr :=
  Call (Name "invocation") [Constant (CStr name)]
    [(Some "title", Constant (CStr title));
     (Some "tags", List [Constant (CStr "math")]);
     (Some "version", Constant (CStr "1.0.0"))].

Definition unit_of_work (cls name title : string) (returned : list expr)
  : node :=
  ClassDef cls (unit_body returned) [unit_marker name title].

(** A function [helper] with a one-line docstring, at the top of a
    module. *)
Definition helper : node :=
  FunctionDef "helper" [Expr (Constant (CStr "Helps."))] [] None.

Definition self_something : expr := Attribute (Name "self") "something".

(** [a.b.c]: the base of the attribute access is itself one. *)
Definition a_b_c : expr := Attribute (Attribute (Name "a") "b") "c".

Definition file (name : string) (body : list node) : dir_entry :=
  mkEntry name (Parsed (Module body)).



(** A class whose [invoke] returns [a.b.c(...)], between two others. *)
Definition nested_attribute : node :=
  Module [unit_of_work "A" "a" "Apple" [Name "Out"];
          unit_of_work "B" "b" "Banana" [a_b_c];
          helper;
          unit_of_work "C" "c" "Cherry" [Name "Out"]].



(** [Banana] is declared before [apple]. *)
Definition banana_then_apple : list dir_entry :=
  [file "fruit.py" [unit_of_work "B" "b" "Banana" [Name "Out"];
                    unit_of_work "A" "a" "apple" [Name "Out"]]].

(** A file that does not parse, between two that do. *)
Definition broken_between : list dir_entry :=
  [file "a.py" [unit_of_work "A" "a" "Apple" [Name "Out"]; out_class];
   mkEntry "b.py" (ParseError "invalid syntax (<unknown>, line 1)");
   file "c.py" [helper; unit_of_work "C" "c" "Cherry" [self_something]]].

End Samples.

(** ** Further vocabulary *)

(** The entries of a listing that [extract_docs] opens. *)
Definition is_python_file (entry : dir_entry) : bool :=
  PyStr.endswith (filename entry) ".py".

(** A registry holds each name once, and every entry under its own
    name. *)
Definition registry_ok (d : PyDict.t OutputDefinitionInfo.t) : Prop :=
  NoDup (PyDict.keys d)
  /\ Forall (fun item => OutputDefinitionInfo.name (snd item) = fst item) d.





(** Expressions made of names, constants and calls of a name on such
    arguments. *)
Fixpoint common_shape (n : expr) : bool :=
  match n with
  | Name _ | Constant _ => true
  | Call (Name _) args _ => forallb common_shape args
  | _ => false
  end.

(** The link a walked node carries is the one [setup_ast_parent_links]
    sets: no parent for [root], else a node that has it as a child. *)
Definition parent_link_ok (root : node) (item : linked) : Prop :=
  match snd item with
  | None => fst item = root
  | Some parent => In (fst item) (iter_child_nodes parent)
  end.

(** No [Module] node in the tree: the case of every node below the root
    of a parsed module. *)
Fixpoint module_free (n : node) : bool :=
  match n with
  | Module _ => false
  | ClassDef _ body _ => forallb module_free body
  | FunctionDef _ body _ _ => forallb module_free body
  | OtherNode _ children => forallb module_free children
  | AnnAssign _ _ _ | Expr _ | Return _ => true
  end.

(** The record [_process_function] appends for a function definition. *)
Definition function_record (n : node) : list FunctionInfo.t :=
  match n with
  | FunctionDef name body _ _ =>
      [FunctionInfo.mk name (function_docstring body)]
  | _ => []
  end.

(** What the second loop appends to [functions] at one item. *)
Definition linked_function_record (item : linked) : list FunctionInfo.t :=
  match item with
  | (n, Some (Module _)) => function_record n
  | _ => []
  end.

(** A node below the top level of a module: its parent is not the
    module, and no module is below it. *)
Definition below_top_level (item : linked) : bool :=
  module_free (fst item)
  && match snd item with
     | Some (Module _) | None => false
     | Some _ => true
     end.

(** [c in s] for one character. *)
Fixpoint has_char (c : ascii) (s : string) : bool :=
  match s with
  | EmptyString => false
  | String c' rest => Ascii.eqb c' c || has_char c rest
  end.

(** ** The report and the command line *)

(** [s.replace(old, new)] for one-character [old] and [new]. *)
Fixpoint replace_char (old new : ascii) (s : string) : string :=
  match s with
  | EmptyString => EmptyString
  | String c rest =>
      String (if Ascii.eqb c old then new else c) (replace_char old new rest)
  end.

(** [s.replace(old, '')] for a one-character [old]. *)
Fixpoint remove_char (old : ascii) (s : string) : string :=
  match s with
  | EmptyString => EmptyString
  | String c rest =>
      if Ascii.eqb c old then remove_char old rest
      else String c (remove_char old rest)
  end.

(** The characters of the literal that [generate_markdown] loops over to
    clean a link target, in its order and with its repetitions: round
    brackets, backslash, slash, backslash, and so on up to the question
    mark; the quotes and the backslash are given by their codes. *)
Definition punctuation : list ascii :=
  ["("; ")"; "092"; "/"; "092"; "!"; "@"; "#"; "$"; "%"; "^"; "&"; "*";
   "("; ")"; "_"; "="; "+"; "["; "{"; "]"; "}"; "|"; ";"; ":"; "039";
   "034"; "<"; ">"; ","; "."; "?"]%char.

(** The link target of a node in the overview of [generate_markdown]:
    [_title] after the loop over the punctuation. *)
Definition anchor (title : string) : string :=
  let _title := replace_char " " "-" (PyStr.lower title) in
  fold_left (fun _title punctuation => remove_char punctuation _title)
            punctuation _title.

(** The Latin capital letters [A] to [Z]. *)
Definition is_ascii_capital (c : ascii) : bool :=
  ((65 <=? nat_of_ascii c) && (nat_of_ascii c <=? 90))%nat.

(** A character that no link target holds. *)
Definition dropped_from_anchor (c : ascii) : bool :=
  Ascii.eqb c " " || existsb (Ascii.eqb c) punctuation || is_ascii_capital c.

(** The characters [make_docs] drops from the end of its directory
    argument: double quote, single quote, backslash, slash. *)
Definition trailer (c : ascii) : bool :=
  existsb (Ascii.eqb c) ["034"; "039"; "092"; "/"]%char.

(** [s[-1]], when [s] is not empty. *)
Fixpoint last_char (s : string) : option ascii :=
  match s with
  | EmptyString => None
  | String c EmptyString => Some c
  | String _ rest => last_char rest
  end.

(** [s[:-1]] *)
Fixpoint drop_last (s : string) : string :=
  match s with
  | EmptyString => EmptyString
  | String _ EmptyString => EmptyString
  | String c rest => String c (drop_last rest)
  end.

(** How the [while] loop of [make_docs] ends: with the directory, or with
    the [IndexError] of [args_directory[-1]] on an empty text. *)
Inductive stripped : Type :=
| Stripped (args_directory : string)
| IndexError
| OutOfFuel.

Fixpoint strip_directory_loop (fuel : nat) (args_directory : string)
  : stripped :=
  match fuel with
  | 0 => OutOfFuel
  | S fuel' =>
      match last_char args_directory with
      | None => IndexError
      | Some c =>
          if trailer c
          then strip_directory_loop fuel' (drop_last args_directory)
          else Stripped args_directory
      end
  end.

(** The loop of [make_docs] on the directory argument; one turn per
    character at most, and one more to look at what is left. *)
Definition strip_directory (args_directory : string) : stripped :=
  strip_directory_loop (S (String.length args_directory)) args_directory.

(** [posixpath.basename(p)], which is [os.path.basename] on a POSIX
    platform: what follows the last slash.  On Windows [os.path] is
    [ntpath], which is not modelled. *)
Fixpoint posixpath_basename (p : string) : string :=
  match p with
  | EmptyString => EmptyString
  | String c rest =>
      if has_char "/" rest then posixpath_basename rest
      else if Ascii.eqb c "/" then rest
      else p
  end.

(** The output file [make_docs] writes on a POSIX platform when
    [--output] is not given. *)
Definition posix_default_output_file (args_directory : string) : string :=
  posixpath_basename args_directory ++ ".md".

(** Every character of [s] satisfies [p]. *)
Fixpoint all_chars (p : ascii -> bool) (s : string) : bool :=
  match s with
  | EmptyString => true
  | String c rest => p c && all_chars p rest
  end.

(** ** The renderers under the interpreter's digit limit

    Since CPython 3.11 (and the security releases of 3.7 to 3.10)
    [str(n)] raises [ValueError] when the integer [n] has more decimal
    digits than [sys.get_int_max_str_digits()], 4300 unless changed.  Such
    a constant is written in hexadecimal, octal or binary, for which the
    parser has no limit.  [str(node.value)] is the only place where the
    two renderers can raise; this module gives them with that exception.
    [_get_type_annotation] and [_get_default_value] above are the texts
    they return. *)
Module DigitLimit.

(** [sys.get_int_max_str_digits()] *)
Definition int_max_str_digits : Z := 4300.

(** [n] has more than [int_max_str_digits] digits, the sign apart. *)
Definition too_long (n : Z) : bool :=
  (10 ^ int_max_str_digits <=? Z.abs n)%Z.

(** What a renderer ends with: a value, or the [ValueError] of [str]. *)
Inductive rendering (A : Type) : Type :=
| Rendered (a : A)
| ValueError.
Arguments Rendered {A} a.
Arguments ValueError {A}.

Definition and_then {A B : Type} (r : rendering A) (k : A -> rendering B)
  : rendering B :=
  match r with
  | Rendered a => k a
  | ValueError => ValueError
  end.

(** A list comprehension over a function that may raise: the first
    exception ends it. *)
Section Comprehension.
Variables A B : Type.
Variable f : A -> rendering B.

Fixpoint comprehension (items : list A) : rendering (list B) :=
  match items with
  | [] => Rendered []
  | item :: rest =>
      and_then (f item) (fun b =>
      and_then (comprehension rest) (fun bs => Rendered (b :: bs)))
  end.
End Comprehension.

(** [str(value)] for the value of a constant. *)
Definition py_str (value : constant) : rendering string :=
  match value with
  | CInt n => if too_long n then ValueError else Rendered (py_str (CInt n))
  | _ => Rendered (py_str value)
  end.

(** [DocExtractor._get_type_annotation] *)
Fixpoint _get_type_annotation (n : expr) : rendering string :=
  match n with
  | Name id => Rendered id
  | Subscript value slice =>
      and_then (_get_type_annotation value) (fun base =>
      match slice with
      | Index slice_value =>
          match slice_value with
          | Tuple elts =>
              and_then (comprehension _get_type_annotation elts)
                (fun params =>
                   Rendered
                     (base ++ "[" ++ PyStr.join ", " params ++ "]")%string)
          | _ =>
              and_then (_get_type_annotation slice_value) (fun inner =>
              Rendered (base ++ "[" ++ inner ++ "]")%string)
          end
      | _ =>
          and_then (_get_type_annotation slice) (fun inner =>
          Rendered (base ++ "[" ++ inner ++ "]")%string)
      end)
  | Attribute value attr =>
      and_then (_get_type_annotation value) (fun value =>
      Rendered (value ++ "." ++ attr)%string)
  | Constant value => py_str value
  | Tuple elts =>
      and_then (comprehension _get_type_annotation elts) (fun parts =>
      Rendered ("(" ++ PyStr.join ", " parts ++ ")")%string)
  | Call (Name func_name) args _ =>
      and_then (comprehension _get_type_annotation args) (fun args =>
      Rendered (func_name ++ "(" ++ PyStr.join ", " args ++ ")")%string)
  | _ => Rendered "Any"
  end.

(** [DocExtractor._get_default_value] *)
Fixpoint _get_default_value (n : expr) : rendering string :=
  match n with
  | Constant value => py_str value
  | Name id => Rendered id
  | List elts =>
      and_then (comprehension _get_default_value elts) (fun parts =>
      Rendered ("[" ++ PyStr.join ", " parts ++ "]")%string)
  | Dict keys values =>
      and_then
        (comprehension
           (fun k => match k with
                     | Some k => _get_default_value k
                     | None => Rendered "None"
                     end) keys)
        (fun keys =>
      and_then (comprehension _get_default_value values) (fun values =>
      Rendered
        ("{" ++ PyStr.join ", " (zip_pairs keys values) ++ "}")%string))
  | Call (Name func_name) args _ =>
      and_then (comprehension _get_default_value args) (fun args =>
      Rendered (func_name ++ "(" ++ PyStr.join ", " args ++ ")")%string)
  | _ => Rendered "None"
  end.

End DigitLimit.

(** No integer constant of the expression has more digits than the
    interpreter's limit. *)
Fixpoint small_ints (n : expr) : bool :=
  match n with
  | Constant (CInt z) => negb (DigitLimit.too_long z)
  | Constant _ | Name _ | OtherExpr _ => true
  | Attribute value _ => small_ints value
  | Subscript value slice => small_ints value && small_ints slice
  | Index value => small_ints value
  | Tuple elts => forallb small_ints elts
  | List elts => forallb small_ints elts
  | Dict keys values =>
      forallb (fun k => match k with
                        | Some k => small_ints k
                        | None => true
                        end) keys
      && forallb small_ints values
  | Call func args keywords =>
      small_ints func && forallb small_ints args
      && forallb (fun kw => small_ints (snd kw)) keywords
  end.

Definition small_ints_option (n : option expr) : bool :=
  match n with
  | Some n => small_ints n
  | None => true
  end.

(** The same for every expression the extractor can read in a tree. *)
Fixpoint small_ints_node (n : node) : bool :=
  match n with
  | Module body => forallb small_ints_node body
  | ClassDef _ body decorator_list =>
      forallb small_ints_node body && forallb small_ints decorator_list
  | FunctionDef _ body decorator_list returns =>
      forallb small_ints_node body && forallb small_ints decorator_list
      && small_ints_option returns
  | AnnAssign target annotation value =>
      small_ints target && small_ints annotation && small_ints_option value
  | Expr value => small_ints value
  | Return value => small_ints_option value
  | OtherNode _ children => forallb small_ints_node children
  end.


(** The places where the two passes call a renderer on a class body, and
    some more: the annotation of each annotated assignment, the value of
    each keyword of the call it is given, and the return annotation of
    each function. *)
Definition rendering_sites (body : list node) : list expr :=
  flat_map
    (fun item =>
       match item with
       | AnnAssign _ annotation (Some (Call _ _ keywords)) =>
           annotation :: map snd keywords
       | AnnAssign _ annotation _ => [annotation]
       | FunctionDef _ _ _ (Some returns) => [returns]
       | _ => []
       end)
    body.

(** The docstring of a body: the string constant of its first statement. *)
Definition docstring_of (body : list node) : option string :=
  match body with
  | Expr (Constant (CStr value)) :: _ => Some value
  | _ => None
  end.

(** * Properties *)

Unset Implicit Arguments.

(** ** Dictionaries *)

Section DictFacts.
Variable V : Type.
Implicit Types (d : PyDict.t V) (k : string) (v : V).

Lemma dict_get_set_same d k v : PyDict.get k (PyDict.set k v d) = Some v.
Proof.
  induction d as [|[k' v'] rest IH]; simpl.
  - now rewrite String.eqb_refl.
  - destruct (k' =? k)%string eqn:E; simpl; rewrite E; auto.
Qed.

Lemma dict_get_set_other d k k' v :
  k' <> k -> PyDict.get k' (PyDict.set k v d) = PyDict.get k' d.
Proof.
  intros Hneq.
  induction d as [|[k0 v0] rest IH]; simpl.
  - destruct (k =? k')%string eqn:E; auto.
    apply String.eqb_eq in E. congruence.
  - destruct (k0 =? k)%string eqn:E; simpl.
    + apply String.eqb_eq in E. subst k0.
      destruct (k =? k')%string eqn:E'; auto.
      apply String.eqb_eq in E'. congruence.
    + now rewrite IH.
Qed.

Lemma dict_keys_set_present d k v old :
  PyDict.get k d = Some old ->
  PyDict.keys (PyDict.set k v d) = PyDict.keys d.
Proof.
  unfold PyDict.keys.
  induction d as [|[k' v'] rest IH]; simpl; [discriminate|].
  destruct (k' =? k)%string; simpl; intros H; auto.
  now rewrite IH.
Qed.

Lemma dict_keys_set_absent d k v :
  PyDict.get k d = None ->
  PyDict.keys (PyDict.set k v d) = PyDict.keys d ++ [k].
Proof.
  unfold PyDict.keys.
  induction d as [|[k' v'] rest IH]; simpl; auto.
  destruct (k' =? k)%string; simpl; intros H; [discriminate|].
  now rewrite IH.
Qed.
End DictFacts.

(** ** The order on titles *)

Lemma string_compare_refl s : String.compare s s = Eq.
Proof.
  induction s as [|c s IH]; simpl; auto.
  unfold Ascii.compare. now rewrite N.compare_refl.
Qed.

Lemma ascii_compare_lt_trans a b c :
  Ascii.compare a b = Lt -> Ascii.compare b c = Lt -> Ascii.compare a c = Lt.
Proof.
  unfold Ascii.compare. rewrite !N.compare_lt_iff. apply N.lt_trans.
Qed.

Lemma string_compare_lt_trans s1 :
  forall s2 s3,
    String.compare s1 s2 = Lt -> String.compare s2 s3 = Lt ->
    String.compare s1 s3 = Lt.
Proof.
  induction s1 as [|c1 s1 IH]; intros [|c2 s2] [|c3 s3]; simpl;
    try congruence.
  destruct (Ascii.compare c1 c2) eqn:E12; try discriminate;
    destruct (Ascii.compare c2 c3) eqn:E23; try discriminate; intros H12 H23.
  - apply Ascii.compare_eq_iff in E12, E23. subst.
    rewrite (proj2 (N.compare_eq_iff _ _) eq_refl : Ascii.compare c3 c3 = Eq).
    eauto.
  - apply Ascii.compare_eq_iff in E12. subst. now rewrite E23.
  - apply Ascii.compare_eq_iff in E23. subst. now rewrite E12.
  - now rewrite (ascii_compare_lt_trans _ _ _ E12 E23).
Qed.

Lemma pystr_lt_asym s1 s2 : PyStr.lt s1 s2 = true -> PyStr.lt s2 s1 = false.
Proof.
  unfold PyStr.lt, String.ltb. rewrite (String.compare_antisym s2 s1).
  destruct (String.compare s1 s2); simpl; congruence.
Qed.

(** [s1 <= s2] and [s2 <= s3] give [s1 <= s3], with [a <= b] read as
    [not (b < a)]. *)
Lemma pystr_le_trans s1 s2 s3 :
  PyStr.lt s2 s1 = false -> PyStr.lt s3 s2 = false -> PyStr.lt s3 s1 = false.
Proof.
  unfold PyStr.lt, String.ltb. intros H21 H32.
  destruct (String.compare s3 s1) eqn:E31; auto.
  destruct (String.compare s2 s1) eqn:E21; try discriminate.
  - apply String.compare_eq_iff in E21. subst. now rewrite E31 in H32.
  - assert (E12 : String.compare s1 s2 = Lt)
      by (rewrite String.compare_antisym, E21; reflexivity).
    now rewrite (string_compare_lt_trans _ _ _ E31 E12) in H32.
Qed.

(** ** The stable sort *)

Section SortFacts.
Variable A : Type.
Variable lt : A -> A -> bool.

Local Abbreviation le := (not_after lt).

Hypothesis lt_asym : forall a b, lt a b = true -> lt b a = false.
Hypothesis le_trans : forall a b c, le a b -> le b c -> le a c.

Lemma insort_perm x l : Permutation (x :: l) (insort lt x l).
Proof.
  induction l as [|y rest IH]; simpl; auto.
  destruct (lt y x); auto.
  rewrite perm_swap. now constructor.
Qed.

Lemma list_sort_perm l : Permutation l (list_sort lt l).
Proof.
  induction l as [|x rest IH]; simpl; auto.
  rewrite <- insort_perm. now constructor.
Qed.

Lemma insort_sorted x l :
  StronglySorted le l -> StronglySorted le (insort lt x l).
Proof.
  induction 1 as [|y rest Hs IH Hall]; simpl.
  - repeat constructor.
  - destruct (lt y x) eqn:E.
    + constructor; auto.
      rewrite <- insort_perm. constructor; auto.
      apply lt_asym. exact E.
    + constructor; [constructor; auto|].
      constructor; [exact E|].
      rewrite Forall_forall in *. intros z Hz.
      apply le_trans with y; auto.
  Qed.

Lemma list_sort_sorted l : StronglySorted le (list_sort lt l).
Proof.
  induction l as [|x rest IH]; simpl; [constructor|].
  now apply insort_sorted.
Qed.

(** Elements that [p] selects are never smaller than one another: they
    compare equal. *)
Variable p : A -> bool.
Hypothesis p_class : forall a b, p a = true -> p b = true -> lt a b = false.

Lemma insort_filter x l :
  filter p (insort lt x l) = filter p (x :: l).
Proof.
  induction l as [|y rest IH]; simpl; auto.
  destruct (lt y x) eqn:E; simpl; auto.
  simpl in IH. rewrite IH.
  destruct (p x) eqn:Px, (p y) eqn:Py; auto.
  rewrite (p_class _ _ Py Px) in E. discriminate.
Qed.

Lemma list_sort_filter l : filter p (list_sort lt l) = filter p l.
Proof.
  induction l as [|x rest IH]; simpl; auto.
  rewrite insort_filter. simpl. now rewrite IH.
Qed.
End SortFacts.

Lemma strongly_sorted_nth (A : Type) (R : A -> A -> Prop) (l : list A) :
  StronglySorted R l ->
  forall i j x y,
    nth_error l i = Some x -> nth_error l j = Some y -> i < j -> R x y.
Proof.
  induction 1 as [|z rest Hs IH Hall]; intros i j x y Hi Hj Hlt.
  - destruct i; discriminate.
  - destruct j as [|j]; [lia|]. simpl in Hj.
    destruct i as [|i]; simpl in Hi.
    + injection Hi as <-. rewrite Forall_forall in Hall.
      apply Hall. eapply nth_error_In; eauto.
    + eapply IH; eauto. lia.
Qed.

(** ** The walk *)

Lemma node_count_children n :
  node_count n = S (list_sum (map node_count (iter_child_nodes n))).
Proof. destruct n; reflexivity. Qed.

Lemma subnodes_children n :
  subnodes n = n :: flat_map subnodes (iter_child_nodes n).
Proof. destruct n; reflexivity. Qed.

Lemma todo_count_app t1 t2 :
  todo_count (t1 ++ t2) = todo_count t1 + todo_count t2.
Proof. unfold todo_count. now rewrite map_app, list_sum_app. Qed.

Lemma todo_count_link_children n :
  S (todo_count (link_children n)) = node_count n.
Proof.
  rewrite node_count_children. unfold todo_count, link_children.
  now rewrite map_map.
Qed.

Lemma map_fst_link_children n :
  map fst (link_children n) = iter_child_nodes n.
Proof.
  unfold link_children. rewrite map_map. simpl. apply map_id.
Qed.

(** With enough fuel the loop yields every waiting node: the fuel never
    cuts the walk short. *)
Lemma todo_count_cons n parent rest :
  todo_count ((n, parent) :: rest)
  = S (todo_count (rest ++ link_children n)).
Proof.
  rewrite todo_count_app. unfold todo_count at 1. simpl.
  rewrite <- (todo_count_link_children n). unfold todo_count. lia.
Qed.

(** With enough fuel the loop yields every waiting node: the fuel never
    cuts the walk short. *)
Lemma walk_todo_length fuel :
  forall todo,
    todo_count todo <= fuel ->
    List.length (walk_todo fuel todo) = todo_count todo.
Proof.
  induction fuel as [|fuel IH]; intros [|[n parent] rest] Hfuel;
    try reflexivity.
  - rewrite todo_count_cons in Hfuel. lia.
  - rewrite todo_count_cons in Hfuel. rewrite todo_count_cons.
    cbn [walk_todo List.length].
    rewrite IH by (apply le_S_n; exact Hfuel). reflexivity.
Qed.

(** The walk yields the nodes of the queued trees, each one once. *)
Lemma walk_todo_subnodes fuel :
  forall todo,
    todo_count todo <= fuel ->
    Permutation (map fst (walk_todo fuel todo))
                (flat_map subnodes (map fst todo)).
Proof.
  induction fuel as [|fuel IH]; intros [|[n parent] rest] Hfuel.
  - constructor.
  - rewrite todo_count_cons in Hfuel. lia.
  - constructor.
  - rewrite todo_count_cons in Hfuel.
    cbn [walk_todo map fst flat_map]. rewrite subnodes_children.
    simpl. constructor.
    apply le_S_n in Hfuel. rewrite (IH _ Hfuel).
    rewrite map_app, flat_map_app, map_fst_link_children.
    apply Permutation_app_comm.
Qed.

Lemma ast_walk_length root : List.length (ast_walk root) = node_count root.
Proof.
  unfold ast_walk, ast_walk_links. rewrite length_map, walk_todo_length.
  - unfold todo_count. simpl. lia.
  - unfold todo_count. simpl. lia.
Qed.

Lemma ast_walk_subnodes root : Permutation (ast_walk root) (subnodes root).
Proof.
  unfold ast_walk, ast_walk_links. rewrite walk_todo_subnodes.
  - simpl. now rewrite app_nil_r.
  - unfold todo_count. simpl. lia.
Qed.

Lemma ast_walk_map_fst parent root :
  map fst (ast_walk_links parent root) = ast_walk root.
Proof.
  unfold ast_walk, ast_walk_links.
  generalize (node_count root). intros fuel.
  assert (H : forall t1 t2, map fst t1 = map fst t2 ->
                            map fst (walk_todo fuel t1)
                            = map fst (walk_todo fuel t2)).
  { induction fuel as [|fuel IH]; intros [|[n1 p1] r1] [|[n2 p2] r2] E;
      simpl in *; try congruence.
    injection E as -> E. f_equal. apply IH.
    rewrite !map_app. now f_equal. }
  now apply H.
Qed.

(** ** Loops that may raise *)



Lemma return_output_ok defs output item :
  nested_attribute_return item = false ->
  exists output', return_output defs output item = Ok output'.
Proof.
  destruct item as [| | | | |[[]|]|]; simpl; eauto.
  destruct func; simpl; eauto.
  - destruct (PyDict.get id defs); eauto.
  - destruct func; simpl; eauto; discriminate.
Qed.

Lemma return_output_raise defs output item :
  nested_attribute_return item = true ->
  exists e, return_output defs output item = Raise e.
Proof.
  destruct item as [| | | | |[[]|]|]; simpl; try discriminate.
  destruct func; simpl; try discriminate.
  destruct func; simpl; eauto; discriminate.
Qed.



(** One qualifying [return] anywhere in the walk of [invoke] makes the
    loop raise: nothing leaves the loop before its last item. *)
Lemma for_each_return_raise defs items :
  forall output,
    Exists (fun item => nested_attribute_return item = true) items ->
    exists e, for_each (return_output defs) output items = Raise e.
Proof.
  induction items as [|item rest IH]; intros output H; simpl.
  - inversion H.
  - destruct (nested_attribute_return item) eqn:E.
    + destruct (return_output_raise defs output item E) as [e ->].
      simpl. eauto.
    + inversion H; subst; [congruence|].
      destruct (return_output_ok defs output item E) as [o' ->].
      simpl. auto.
Qed.


Lemma find_invoke_function body invoke_method :
  find_invoke body = Some invoke_method ->
  exists name fbody decorator_list returns,
    invoke_method = FunctionDef name fbody decorator_list returns.
Proof.
  intros H. apply find_some in H. destruct H as [_ H].
  destruct invoke_method; try discriminate. eauto.
Qed.

Lemma extract_output_walk defs body invoke_method :
  find_invoke body = Some invoke_method ->
  extract_output defs body
  = for_each (return_output defs) (Output.mk "" []) (ast_walk invoke_method).
Proof.
  intros H. unfold extract_output. rewrite H.
  destruct (find_invoke_function _ _ H) as (? & ? & ? & ? & ->).
  reflexivity.
Qed.

Lemma is_marker_call marker decorator :
  is_marker marker decorator = true ->
  exists args keywords, decorator = Call (Name marker) args keywords.
Proof.
  destruct decorator; try discriminate. simpl.
  destruct decorator; try discriminate.
  intros H. apply String.eqb_eq in H. subst. eauto.
Qed.

(** ** The first pass *)

Lemma first_pass_visit_keeps self n :
  directory (first_pass_visit self n) = directory self
  /\ nodes (first_pass_visit self n) = nodes self
  /\ functions (first_pass_visit self n) = functions self
  /\ stderr (first_pass_visit self n) = stderr self.
Proof.
  destruct n; simpl; auto.
  unfold _process_output_definition.
  destruct (existsb _ _); simpl; auto.
Qed.

Lemma first_pass_items_keeps items :
  forall self,
    directory (fold_left first_pass_visit items self) = directory self
    /\ nodes (fold_left first_pass_visit items self) = nodes self
    /\ functions (fold_left first_pass_visit items self) = functions self
    /\ stderr (fold_left first_pass_visit items self) = stderr self.
Proof.
  induction items as [|n rest IH]; intros self; simpl; auto.
  destruct (IH (first_pass_visit self n)) as (-> & -> & -> & ->).
  apply first_pass_visit_keeps.
Qed.



(** ** The second pass *)

Lemma process_invocation_ok self name body decorator_list self' :
  _process_invocation self name body decorator_list = Ok self' ->
  directory self' = directory self
  /\ functions self' = functions self
  /\ output_defs self' = output_defs self
  /\ stderr self' = stderr self
  /\ match find (is_marker "invocation") decorator_list with
     | Some decorator =>
         exists node_info,
           build_node_info (output_defs self) decorator body = Ok node_info
           /\ nodes self' = nodes self ++ [node_info]
     | None => nodes self' = nodes self
     end.
Proof.
  unfold _process_invocation.
  destruct (find _ decorator_list) as [decorator|].
  - destruct (build_node_info _ decorator body) as [node_info|e]; simpl;
      [|discriminate].
    intros [= <-]. simpl. eauto 10.
  - intros [= <-]. auto.
Qed.

Lemma second_pass_visit_ok self item self' :
  second_pass_visit self item = Ok self' ->
  directory self' = directory self
  /\ output_defs self' = output_defs self
  /\ stderr self' = stderr self
  /\ exists news, nodes self' = nodes self ++ news.
Proof.
  destruct item as [n parent]. destruct n; simpl;
    try (intros [= <-]; repeat split; auto; exists []; now rewrite app_nil_r).
  - intros H. apply process_invocation_ok in H.
    destruct H as (? & ? & ? & ? & H). repeat split; auto.
    destruct (find _ decorator_list).
    + destruct H as (node_info & _ & ->). eauto.
    + exists []. now rewrite app_nil_r.
  - destruct parent as [[]|];
      intros [= <-]; repeat split; auto; exists []; now rewrite app_nil_r.
Qed.

Lemma second_pass_keeps items :
  forall self,
    directory (fst (second_pass self items)) = directory self
    /\ output_defs (fst (second_pass self items)) = output_defs self
    /\ stderr (fst (second_pass self items)) = stderr self
    /\ exists news, nodes (fst (second_pass self items)) = nodes self ++ news.
Proof.
  induction items as [|item rest IH]; intros self; simpl.
  - repeat split; auto. exists []. now rewrite app_nil_r.
  - destruct (second_pass_visit self item) as [self'|e] eqn:E; simpl.
    + apply second_pass_visit_ok in E.
      destruct E as (Ed & Eo & Es & news & En).
      destruct (IH self') as (-> & -> & -> & news' & ->).
      repeat split; auto. exists (news ++ news').
      now rewrite En, app_assoc.
    + repeat split; auto. exists []. now rewrite app_nil_r.
Qed.

Lemma second_pass_app l1 :
  forall self l2,
    second_pass self (l1 ++ l2)
    = match second_pass self l1 with
      | (self', None) => second_pass self' l2
      | stopped => stopped
      end.
Proof.
  induction l1 as [|item l1 IH]; intros self l2; simpl; auto.
  destruct (second_pass_visit self item); auto.
Qed.

(** When the second loop ends without an exception, every class of the
    walk that carries the marker has its record in [nodes], built against
    the registry the loop started with. *)
Lemma second_pass_records items :
  forall self self',
    second_pass self items = (self', None) ->
    forall cls body decorator_list parent decorator,
      In (ClassDef cls body decorator_list, parent) items ->
      find (is_marker "invocation") decorator_list = Some decorator ->
      exists node_info,
        build_node_info (output_defs self) decorator body = Ok node_info
        /\ In node_info (nodes self').
Proof.
  induction items as [|item rest IH];
    intros self self' Hrun cls body decs parent decorator Hin Hfind.
  - inversion Hin.
  - simpl in Hrun.
    destruct (second_pass_visit self item) as [self1|e] eqn:E;
      [|discriminate].
    destruct Hin as [->|Hin].
    + simpl in E. apply process_invocation_ok in E.
      destruct E as (_ & _ & _ & _ & E). rewrite Hfind in E.
      destruct E as (node_info & Hbuild & Hnodes).
      exists node_info. split; auto.
      destruct (second_pass_keeps rest self1) as (_ & _ & _ & news & Hn).
      rewrite Hrun in Hn. simpl in Hn. rewrite Hn, Hnodes.
      apply in_or_app. left. apply in_or_app. right. now left.
    + apply second_pass_visit_ok in E. destruct E as (_ & Eo & _).
      rewrite <- Eo. eapply IH; eauto.
Qed.


(** ** Records and diagnostics are independent *)

Ltac same_records_start a b :=
  destruct a, b; unfold same_records; simpl;
  intros (-> & -> & -> & ->).

Lemma same_records_refl a : same_records a a.
Proof. unfold same_records. auto. Qed.

Lemma same_records_trans a b c :
  same_records a b -> same_records b c -> same_records a c.
Proof.
  unfold same_records. intros (-> & -> & -> & ->) (-> & -> & -> & ->). auto.
Qed.

Lemma print_stderr_same self line : same_records (print_stderr self line) self.
Proof. unfold same_records. simpl. auto. Qed.

Lemma first_pass_visit_same a b n :
  same_records a b ->
  same_records (first_pass_visit a n) (first_pass_visit b n).
Proof.
  same_records_start a b. destruct n; simpl; auto.
  unfold _process_output_definition. simpl.
  destruct (existsb _ _); simpl; auto.
Qed.

Lemma first_pass_same tree a b :
  same_records a b ->
  same_records (first_pass a tree) (first_pass b tree).
Proof.
  unfold first_pass. generalize (ast_walk tree). intros items.
  revert a b. induction items as [|n rest IH]; intros a b H; simpl; auto.
  apply IH. now apply first_pass_visit_same.
Qed.

Lemma second_pass_visit_same a b item :
  same_records a b ->
  match second_pass_visit a item, second_pass_visit b item with
  | Ok a', Ok b' => same_records a' b'
  | Raise e, Raise e' => e = e'
  | _, _ => False
  end.
Proof.
  same_records_start a b. destruct item as [n parent].
  destruct n; simpl; auto.
  - unfold _process_invocation. simpl.
    destruct (find _ decorator_list); simpl; auto.
    destruct (build_node_info _ _ _); simpl; auto.
  - destruct parent as [[]|]; simpl; auto.
Qed.

Lemma second_pass_same items :
  forall a b,
    same_records a b ->
    same_records (fst (second_pass a items)) (fst (second_pass b items))
    /\ snd (second_pass a items) = snd (second_pass b items).
Proof.
  induction items as [|item rest IH]; intros a b H; simpl; auto.
  pose proof (second_pass_visit_same a b item H) as Hv.
  destruct (second_pass_visit a item), (second_pass_visit b item);
    simpl; try contradiction; auto.
  now subst.
Qed.

Lemma process_file_same a b parsed filepath :
  same_records a b ->
  same_records (_process_file a parsed filepath)
               (_process_file b parsed filepath).
Proof.
  intros H. unfold _process_file. destruct parsed as [message|tree].
  - eapply same_records_trans; [apply print_stderr_same|].
    eapply same_records_trans; [exact H|].
    unfold same_records. simpl. auto.
  - pose proof (second_pass_same (ast_walk_links None tree) _ _
                  (first_pass_same tree a b H)) as [Hs He].
    destruct (second_pass (first_pass a tree) _) as [a' [ea|]],
             (second_pass (first_pass b tree) _) as [b' [eb|]];
      simpl in *; try discriminate; auto.
Qed.

Lemma extract_file_same a b entry :
  same_records a b ->
  same_records (extract_file a entry) (extract_file b entry).
Proof.
  intros H. unfold extract_file.
  destruct (PyStr.endswith _ _); auto.
  destruct (outcome entry).
  - unfold same_records in *. simpl. tauto.
  - rewrite (proj1 H). now apply process_file_same.
  - rewrite (proj1 H). now apply process_file_same.
Qed.

Lemma scan_directory_same listdir :
  forall a b,
    same_records a b ->
    same_records (scan_directory a listdir) (scan_directory b listdir).
Proof.
  unfold scan_directory.
  induction listdir as [|entry rest IH]; intros a b H; simpl; auto.
  apply IH. now apply extract_file_same.
Qed.

(** What one file leaves of [self.directory] and of [sys.stderr]. *)
Lemma process_file_frame self parsed filepath :
  directory (_process_file self parsed filepath) = directory self
  /\ exists more,
      stderr (_process_file self parsed filepath) = stderr self ++ more.
Proof.
  unfold _process_file. destruct parsed as [message|tree]; simpl; eauto.
  destruct (second_pass_keeps (ast_walk_links None tree)
              (first_pass self tree)) as (Hd & _ & Hs & _).
  destruct (first_pass_items_keeps (ast_walk tree) self)
    as (Hd' & _ & _ & Hs').
  fold (first_pass self tree) in Hd', Hs'.
  destruct (second_pass (first_pass self tree) _) as [self' [e|]];
    simpl in *.
  - rewrite Hd, Hd', Hs, Hs'. eauto.
  - rewrite Hd, Hd', Hs, Hs'. split; auto.
    exists []. now rewrite app_nil_r.
Qed.

Lemma extract_file_frame self entry :
  directory (extract_file self entry) = directory self
  /\ exists more, stderr (extract_file self entry) = stderr self ++ more.
Proof.
  unfold extract_file.
  destruct (PyStr.endswith _ _).
  - destruct (outcome entry); try apply process_file_frame.
    simpl. eauto.
  - split; auto. exists []. now rewrite app_nil_r.
Qed.

Lemma scan_directory_frame listdir :
  forall self,
    directory (scan_directory self listdir) = directory self
    /\ exists more,
        stderr (scan_directory self listdir) = stderr self ++ more.
Proof.
  unfold scan_directory.
  induction listdir as [|entry rest IH]; intros self; simpl.
  - split; auto. exists []. now rewrite app_nil_r.
  - destruct (IH (extract_file self entry)) as (-> & more & ->).
    destruct (extract_file_frame self entry) as (-> & more' & ->).
    split; auto. exists (more' ++ more). now rewrite app_assoc.
Qed.

(** ** The expression renderer *)



Lemma digit_limit_str value :
  small_ints (Constant value) = true ->
  DigitLimit.py_str value = DigitLimit.Rendered (py_str value).
Proof.
  destruct value; try reflexivity. simpl. unfold DigitLimit.py_str.
  intros H. apply negb_true_iff in H. now rewrite H.
Qed.

(** The step for a list of subtrees: [IH] on each element in turn. *)
Ltac comprehension_agrees IH elts Hl :=
  let e := fresh "e" in
  let rest := fresh "rest" in
  let IHl := fresh "IHl" in
  let He := fresh "He" in
  let Hr := fresh "Hr" in
  revert Hl; induction elts as [|e rest IHl]; intros Hl;
  [ reflexivity
  | simpl in Hl; apply andb_prop in Hl; destruct Hl as [He Hr];
    simpl; rewrite (IH e He), (IHl Hr); reflexivity ].

(** Within the digit limit the type renderer returns, and returns the
    text [_get_type_annotation]. *)
Lemma digit_limit_type_agrees :
  forall n,
    small_ints n = true ->
    DigitLimit._get_type_annotation n
    = DigitLimit.Rendered (_get_type_annotation n).
Proof.
  fix IH 1. intros n H. destruct n as
      [id|value|value attr|value slice|value|elts|elts|keys values
       |func args keywords|cls].
  - reflexivity.
  - now apply digit_limit_str.
  - simpl in H |- *. now rewrite (IH value H).
  - simpl in H. apply andb_prop in H. destruct H as [Hv Hs].
    cbn [DigitLimit._get_type_annotation _get_type_annotation].
    rewrite (IH value Hv). cbn [DigitLimit.and_then].
    pose proof (IH slice Hs) as Hslice.
    destruct slice as
        [id|c|v attr|v s|inner|elts|elts|keys values|func args keywords|cls];
      try (rewrite Hslice; reflexivity).
    clear Hslice. simpl in Hs.
    pose proof (IH inner Hs) as Hinner.
    destruct inner as
        [id|c|v attr|v s|v|elts|elts|keys values|func args keywords|cls];
      try (rewrite Hinner; reflexivity).
    clear Hinner. simpl in Hs.
    assert (Hmap : DigitLimit.comprehension
                     DigitLimit._get_type_annotation elts
                   = DigitLimit.Rendered (map _get_type_annotation elts))
      by comprehension_agrees IH elts Hs.
    now rewrite Hmap.
  - reflexivity.
  - simpl in H.
    assert (Hmap : DigitLimit.comprehension
                     DigitLimit._get_type_annotation elts
                   = DigitLimit.Rendered (map _get_type_annotation elts))
      by comprehension_agrees IH elts H.
    simpl. now rewrite Hmap.
  - reflexivity.
  - reflexivity.
  - simpl in H. apply andb_prop in H. destruct H as [H Hk].
    apply andb_prop in H. destruct H as [Hf Ha].
    assert (Hmap : DigitLimit.comprehension
                     DigitLimit._get_type_annotation args
                   = DigitLimit.Rendered (map _get_type_annotation args))
      by comprehension_agrees IH args Ha.
    destruct func; try reflexivity.
    simpl. now rewrite Hmap.
  - reflexivity.
Qed.

(** The same for the renderer of default values. *)
Lemma digit_limit_default_agrees :
  forall n,
    small_ints n = true ->
    DigitLimit._get_default_value n
    = DigitLimit.Rendered (_get_default_value n).
Proof.
  fix IH 1. intros n H. destruct n as
      [id|value|value attr|value slice|value|elts|elts|keys values
       |func args keywords|cls]; try reflexivity.
  - now apply digit_limit_str.
  - simpl in H.
    assert (Hmap : DigitLimit.comprehension
                     DigitLimit._get_default_value elts
                   = DigitLimit.Rendered (map _get_default_value elts))
      by comprehension_agrees IH elts H.
    simpl. now rewrite Hmap.
  - simpl in H. apply andb_prop in H. destruct H as [Hk Hv].
    assert (Hvalues : DigitLimit.comprehension
                        DigitLimit._get_default_value values
                      = DigitLimit.Rendered (map _get_default_value values))
      by comprehension_agrees IH values Hv.
    assert (Hkeys :
              DigitLimit.comprehension
                (fun k => match k with
                          | Some k => DigitLimit._get_default_value k
                          | None => DigitLimit.Rendered "None"
                          end) keys
              = DigitLimit.Rendered
                  (map (fun k => match k with
                                 | Some k => _get_default_value k
                                 | None => "None"
                                 end) keys)).
    { revert Hk. induction keys as [|k rest IHl]; intros Hk; [reflexivity|].
      simpl in Hk. apply andb_prop in Hk. destruct Hk as [He Hr].
      simpl. rewrite (IHl Hr). destruct k as [k|].
      - rewrite (IH k He). reflexivity.
      - reflexivity. }
    cbn [DigitLimit._get_default_value _get_default_value].
    rewrite Hkeys, Hvalues. reflexivity.
  - simpl in H. apply andb_prop in H. destruct H as [H Hk].
    apply andb_prop in H. destruct H as [Hf Ha].
    assert (Hmap : DigitLimit.comprehension
                     DigitLimit._get_default_value args
                   = DigitLimit.Rendered (map _get_default_value args))
      by comprehension_agrees IH args Ha.
    destruct func; try reflexivity.
    simpl. now rewrite Hmap.
Qed.





(** The Python 3.8 branch of the subscript rule joins the parameters of a
    tuple slice without parentheses. *)
Lemma subscript_index_tuple base a b :
  _get_type_annotation (Subscript (Name base) (Index (Tuple [Name a; Name b])))
  = (base ++ "[" ++ (a ++ ", " ++ b) ++ "]")%string.
Proof. reflexivity. Qed.

(** The Python 3.9 branch hands the tuple to the tuple rule, which adds
    parentheses. *)
Lemma subscript_plain_tuple base a b :
  _get_type_annotation (Subscript (Name base) (Tuple [Name a; Name b]))
  = (base ++ "[" ++ ("(" ++ (a ++ ", " ++ b) ++ ")") ++ "]")%string.
Proof. reflexivity. Qed.

(** C8. On the tree that Python 3.9 and later build for [Base[A, B]] the
    renderer gives ["Base[(A, B)]"], not ["Base[A, B]"]. *)
Theorem subscript_two_parameters_rendering :
  _get_type_annotation (Subscript (Name "Base") (Tuple [Name "A"; Name "B"]))
  = "Base[(A, B)]"
  /\ _get_type_annotation (Subscript (Name "Base") (Tuple [Name "A"; Name "B"]))
     <> "Base[A, B]".
Proof. split; [reflexivity | discriminate]. Qed.

(** ** Input fields *)

Lemma lacks_keyword_app arg kws1 kws2 :
  lacks_keyword arg (kws1 ++ kws2)
  = lacks_keyword arg kws1 && lacks_keyword arg kws2.
Proof. unfold lacks_keyword. apply forallb_app. Qed.

Lemma input_keyword_lacks_default kws :
  forall description default,
    lacks_keyword "default" kws = true ->
    snd (fold_left input_keyword kws (description, default)) = default.
Proof.
  induction kws as [|[[arg|] value] rest IH]; intros description default H;
    simpl in *; auto.
  apply andb_prop in H. destruct H as [Harg Hrest].
  apply negb_true_iff in Harg.
  destruct value; simpl; rewrite ?Harg; auto.
  destruct (arg =? "description")%string; auto.
Qed.

(** C10. A [default=None] keyword renders to ["None"], the text an input
    field starts with, so the record of the field is the one extracted
    when the call has no [default] keyword at all. *)
Theorem default_none_is_placeholder target annotation func args kws1 kws2 :
  lacks_keyword "default" (kws1 ++ kws2) = true ->
  _get_default_value (Constant CNone) = "None"
  /\ input_field
       (AnnAssign target annotation
          (Some (Call func args
                   (kws1 ++ (Some "default", Constant CNone) :: kws2))))
     = input_field
         (AnnAssign target annotation (Some (Call func args (kws1 ++ kws2))))
  /\ Forall (fun field => InputField.default field = "None")
       (input_field
          (AnnAssign target annotation (Some (Call func args (kws1 ++ kws2))))).
Proof.
  intros H. split; [reflexivity|].
  pose proof H as H'. rewrite lacks_keyword_app in H'.
  apply andb_prop in H'. destruct H' as [H1 H2].
  pose proof (input_keyword_lacks_default kws1 (CStr "") "None" H1) as E1.
  pose proof (input_keyword_lacks_default (kws1 ++ kws2) (CStr "") "None" H)
    as E.
  split.
  - simpl. rewrite !fold_left_app. simpl.
    destruct (fold_left input_keyword kws1 (CStr "", "None")) as [d1 x1].
    simpl in E1. subst x1. reflexivity.
  - simpl.
    destruct (fold_left input_keyword (kws1 ++ kws2) (CStr "", "None"))
      as [d x].
    simpl in E. subst x.
    destruct (target_name target) as [field_name|]; [|constructor].
    destruct (PyStr.truthy field_name); repeat constructor.
Qed.

Lemma default_none_is_placeholder_witness :
  lacks_keyword "default"
    [(Some "description", Constant (CStr "left"));
     (Some "title", Constant (CStr "A"))] = true
  /\ input_field
       (AnnAssign (Name "a") (Name "int")
          (Some (Call (Name "InputField") []
                   [(Some "description", Constant (CStr "left"));
                    (Some "default", Constant CNone);
                    (Some "title", Constant (CStr "A"))])))
     = input_field
         (AnnAssign (Name "a") (Name "int")
            (Some (Call (Name "InputField") []
                     [(Some "description", Constant (CStr "left"));
                      (Some "title", Constant (CStr "A"))]))).
Proof.
  split; [reflexivity|].
  exact (proj1 (proj2 (default_none_is_placeholder
                         (Name "a") (Name "int") (Name "InputField") []
                         [(Some "description", Constant (CStr "left"))]
                         [(Some "title", Constant (CStr "A"))] eq_refl))).
Defined.

(** ** The registry *)

(** C7. Registering an output definition under a name the registry
    already holds replaces the stored fields by the later ones and leaves
    the order of the names, and every other entry, as they were. *)
Theorem redefinition_keeps_order self name body decorator_list old :
  existsb (is_marker "invocation_output") decorator_list = true ->
  PyDict.get name (output_defs self) = Some old ->
  let self' := _process_output_definition self name body decorator_list in
  PyDict.get name (output_defs self')
  = Some (OutputDefinitionInfo.mk name (flat_map output_field body))
  /\ PyDict.keys (output_defs self') = PyDict.keys (output_defs self)
  /\ forall other,
      other <> name ->
      PyDict.get other (output_defs self')
      = PyDict.get other (output_defs self).
Proof.
  intros Hmark Hold. unfold _process_output_definition. rewrite Hmark.
  simpl. repeat split.
  - apply dict_get_set_same.
  - eapply dict_keys_set_present; eauto.
  - intros other Hneq. now apply dict_get_set_other.
Qed.

Lemma redefinition_keeps_order_witness :
  let self :=
    first_pass (__init__ "nodes")
               (Module [Samples.out_class; Samples.other_class]) in
  let self' := first_pass_visit self Samples.out_class_again in
  PyDict.keys (output_defs self) = ["Out"; "Other"]
  /\ PyDict.keys (output_defs self') = ["Out"; "Other"]
  /\ PyDict.get "Out" (output_defs self')
     = Some (OutputDefinitionInfo.mk "Out" [OutputField.mk "y" "str" (CStr "")]).
Proof.
  pose proof (redefinition_keeps_order
                (first_pass (__init__ "nodes")
                   (Module [Samples.out_class; Samples.other_class]))
                "Out"
                [AnnAssign (Name "y") (Name "str") None]
                [Call (Name "invocation_output") [Constant (CStr "out")] []]
                (OutputDefinitionInfo.mk "Out"
                   [OutputField.mk "x" "int" (CStr "the x")])
                eq_refl eq_refl) as H.
  exact (conj eq_refl (conj (proj1 (proj2 H)) (proj1 H))).
Defined.

(** ** Sorting *)

Lemma node_lt_asym a b :
  NodeInfo.__lt__ a b = true -> NodeInfo.__lt__ b a = false.
Proof. apply pystr_lt_asym. Qed.

Lemma node_le_trans a b c :
  not_after NodeInfo.__lt__ a b -> not_after NodeInfo.__lt__ b c ->
  not_after NodeInfo.__lt__ a c.
Proof. unfold not_after, NodeInfo.__lt__. apply pystr_le_trans. Qed.

Lemma node_lt_same_key key a b :
  (PyStr.lower (NodeInfo.title a) =? key)%string = true ->
  (PyStr.lower (NodeInfo.title b) =? key)%string = true ->
  NodeInfo.__lt__ a b = false.
Proof.
  intros Ha Hb. apply String.eqb_eq in Ha, Hb.
  unfold NodeInfo.__lt__, PyStr.lt, String.ltb.
  now rewrite Ha, Hb, string_compare_refl.
Qed.

(** C4. [extract_docs] leaves in [nodes] the records the scan produced,
    in ascending order of the lower-cased title; records whose lower-cased
    titles are equal keep the order in which they were appended; and a
    record titled ["apple"] comes before every record titled ["Banana"]. *)
Theorem nodes_sorted_by_title self listdir :
  let unsorted := nodes (scan_directory self listdir) in
  let sorted := nodes (extract_docs self listdir) in
  Permutation unsorted sorted
  /\ StronglySorted (not_after NodeInfo.__lt__) sorted
  /\ (forall key,
        filter (fun n => (PyStr.lower (NodeInfo.title n) =? key)%string) sorted
        = filter (fun n => (PyStr.lower (NodeInfo.title n) =? key)%string)
                 unsorted)
  /\ (forall i j a b,
        nth_error sorted i = Some a -> nth_error sorted j = Some b ->
        NodeInfo.title a = "apple" -> NodeInfo.title b = "Banana" ->
        i < j).
Proof.
  simpl. set (unsorted := nodes (scan_directory self listdir)).
  assert (Hsorted : StronglySorted (not_after NodeInfo.__lt__)
                      (list_sort NodeInfo.__lt__ unsorted))
    by (apply list_sort_sorted; [exact node_lt_asym | exact node_le_trans]).
  refine (conj _ (conj Hsorted (conj _ _))).
  - apply list_sort_perm.
  - intros key. apply list_sort_filter. apply node_lt_same_key.
  - intros i j a b Hi Hj Ha Hb.
    assert (Hlt : NodeInfo.__lt__ a b = true).
    { unfold NodeInfo.__lt__. rewrite Ha, Hb. reflexivity. }
    destruct (Nat.lt_trichotomy i j) as [Hij|[Hij|Hij]]; auto.
    + subst j. rewrite Hi in Hj. injection Hj as <-.
      rewrite Ha in Hb. discriminate.
    + pose proof (strongly_sorted_nth _ _ _ Hsorted j i b a Hj Hi Hij) as Hle.
      unfold not_after in Hle. congruence.
Qed.

Lemma nodes_sorted_by_title_witness :
  let sorted :=
    nodes (extract_docs (__init__ "nodes") Samples.banana_then_apple) in
  map NodeInfo.title
      (nodes (scan_directory (__init__ "nodes") Samples.banana_then_apple))
  = ["Banana"; "apple"]
  /\ exists a b,
      nth_error sorted 0 = Some a /\ NodeInfo.title a = "apple"
      /\ nth_error sorted 1 = Some b /\ NodeInfo.title b = "Banana"
      /\ 0 < 1.
Proof.
  split; [reflexivity|].
  eexists. eexists.
  refine (conj eq_refl (conj eq_refl (conj eq_refl (conj eq_refl _)))).
  exact (proj2 (proj2 (proj2
           (nodes_sorted_by_title (__init__ "nodes")
                                  Samples.banana_then_apple)))
           0 1 _ _ eq_refl eq_refl eq_refl eq_refl).
Defined.

(** ** A module that does not parse *)

Lemma scan_directory_app self l1 l2 :
  scan_directory self (l1 ++ l2)
  = scan_directory (scan_directory self l1) l2.
Proof. unfold scan_directory. apply fold_left_app. Qed.

Lemma scan_directory_cons self entry rest :
  scan_directory self (entry :: rest)
  = scan_directory (extract_file self entry) rest.
Proof. reflexivity. Qed.

Lemma sorted_same a b :
  same_records a b ->
  same_records (with_nodes a (list_sort NodeInfo.__lt__ (nodes a)))
               (with_nodes b (list_sort NodeInfo.__lt__ (nodes b))).
Proof.
  unfold same_records. simpl. intros (-> & -> & -> & ->). auto.
Qed.

(** C5. A module whose text does not parse costs one line on the error
    channel and nothing else: the records of the run are those of the run
    over the same directory without that module. *)
Theorem parse_error_is_skipped self before broken after message :
  outcome broken = ParseError message ->
  PyStr.endswith (filename broken) ".py" = true ->
  same_records (extract_docs self (before ++ broken :: after))
               (extract_docs self (before ++ after))
  /\ In ("Error parsing "
         ++ os_path_join (directory self) (filename broken)
         ++ ": " ++ message)%string
        (stderr (extract_docs self (before ++ broken :: after))).
Proof.
  intros Hout Hpy.
  set (line := ("Error parsing "
                ++ os_path_join (directory self) (filename broken)
                ++ ": " ++ message)%string).
  unfold extract_docs.
  rewrite !scan_directory_app, scan_directory_cons.
  set (s := scan_directory self before).
  assert (Hstep : extract_file s broken = print_stderr s line).
  { unfold extract_file. rewrite Hpy, Hout. simpl.
    unfold s. now rewrite (proj1 (scan_directory_frame before self)). }
  rewrite Hstep.
  pose proof (scan_directory_same after _ _ (print_stderr_same s line))
    as Hsame.
  split.
  - now apply sorted_same.
  - simpl.
    destruct (scan_directory_frame after (print_stderr s line))
      as (_ & more & ->).
    simpl. apply in_or_app. left. apply in_or_app. right. now left.
Qed.

Lemma parse_error_is_skipped_witness :
  map NodeInfo.title
      (nodes (extract_docs (__init__ "nodes") Samples.broken_between))
  = ["Apple"; "Cherry"]
  /\ same_records
       (extract_docs (__init__ "nodes") Samples.broken_between)
       (extract_docs (__init__ "nodes")
          [Samples.file "a.py"
             [Samples.unit_of_work "A" "a" "Apple" [Name "Out"];
              Samples.out_class];
           Samples.file "c.py"
             [Samples.helper;
              Samples.unit_of_work "C" "c" "Cherry"
                                   [Samples.self_something]]])
  /\ stderr (extract_docs (__init__ "nodes") Samples.broken_between)
     = ["Error parsing nodes/b.py: invalid syntax (<unknown>, line 1)"].
Proof.
  split; [reflexivity|]. split; [|reflexivity].
  exact (proj1 (parse_error_is_skipped (__init__ "nodes")
                  [Samples.file "a.py"
                     [Samples.unit_of_work "A" "a" "Apple" [Name "Out"];
                      Samples.out_class]]
                  (mkEntry "b.py"
                     (ParseError "invalid syntax (<unknown>, line 1)"))
                  [Samples.file "c.py"
                     [Samples.helper;
                      Samples.unit_of_work "C" "c" "Cherry"
                                           [Samples.self_something]]]
                  "invalid syntax (<unknown>, line 1)" eq_refl eq_refl)).
Defined.

(** ** The output reference *)

Lemma build_node_info_output defs marker args keywords body :
  build_node_info defs (Call (Name marker) args keywords) body
  = bind (extract_output defs body)
         (fun output =>
            Ok (NodeInfo.mk
                  match args with
                  | arg0 :: _ => _get_string_value arg0
                  | [] => ""
                  end
                  (kw_title (fold_left marker_keyword keywords
                               (mkMarkerKeywords "" "" [] "")))
                  (fst (class_docstring body))
                  (snd (class_docstring body))
                  (kw_category (fold_left marker_keyword keywords
                                  (mkMarkerKeywords "" "" [] "")))
                  (kw_tags (fold_left marker_keyword keywords
                              (mkMarkerKeywords "" "" [] "")))
                  (kw_version (fold_left marker_keyword keywords
                                 (mkMarkerKeywords "" "" [] "")))
                  (flat_map input_field body)
                  output)).
Proof.
  unfold build_node_info. destruct (class_docstring body). reflexivity.
Qed.

Lemma find_marker_call marker decorator_list decorator :
  find (is_marker marker) decorator_list = Some decorator ->
  exists args keywords, decorator = Call (Name marker) args keywords.
Proof.
  intros H. apply find_some in H. destruct H as [_ H].
  now apply is_marker_call.
Qed.




(** C9. A marked class whose [invoke] holds a [return] of a call on an
    attribute access whose base is not a name makes the output extraction
    raise; the exception ends the second loop of the module: [nodes] and
    [functions] stay as they were when the class was reached, and the
    module leaves one line on the error channel. *)
Theorem nested_attribute_return_ends_module
        self filepath tree before cls body decorator_list parent after
        decorator invoke_method :
  ast_walk_links None tree
  = before ++ (ClassDef cls body decorator_list, parent) :: after ->
  snd (second_pass (first_pass self tree) before) = None ->
  find (is_marker "invocation") decorator_list = Some decorator ->
  find_invoke body = Some invoke_method ->
  Exists (fun item => nested_attribute_return item = true)
         (ast_walk invoke_method) ->
  let reached := fst (second_pass (first_pass self tree) before) in
  exists e,
    extract_output (output_defs (first_pass self tree)) body = Raise e
    /\ _process_file self (inr tree) filepath
       = print_stderr reached
           ("Error parsing " ++ filepath ++ ": " ++ exn_str e)%string
    /\ nodes (_process_file self (inr tree) filepath) = nodes reached
    /\ functions (_process_file self (inr tree) filepath) = functions reached.
Proof.
  intros Hwalk Hbefore Hmark Hinvoke Hret reached.
  destruct (for_each_return_raise (output_defs (first_pass self tree))
              (ast_walk invoke_method) (Output.mk "" []) Hret) as [e He].
  rewrite <- (extract_output_walk _ body invoke_method Hinvoke) in He.
  exists e. split; [exact He|].
  assert (Hfile : _process_file self (inr tree) filepath
                  = print_stderr reached
                      ("Error parsing " ++ filepath ++ ": " ++ exn_str e)%string).
  { unfold _process_file. rewrite Hwalk, second_pass_app.
    destruct (second_pass (first_pass self tree) before) as [s stop] eqn:Es.
    simpl in Hbefore. subst stop. subst reached. simpl.
    unfold _process_invocation. rewrite Hmark.
    destruct (find_marker_call _ _ _ Hmark) as (args & keywords & ->).
    rewrite build_node_info_output.
    pose proof (second_pass_keeps before (first_pass self tree))
      as (_ & Ho & _).
    rewrite Es in Ho. simpl in Ho. rewrite Ho, He. reflexivity. }
  rewrite Hfile. auto.
Qed.

Lemma nested_attribute_return_ends_module_witness :
  map NodeInfo.title
      (nodes (_process_file (__init__ "nodes")
                            (inr Samples.nested_attribute) "nodes/a.py"))
  = ["Apple"]
  /\ functions (_process_file (__init__ "nodes")
                              (inr Samples.nested_attribute) "nodes/a.py")
     = []
  /\ stderr (_process_file (__init__ "nodes")
                           (inr Samples.nested_attribute) "nodes/a.py")
     = ["Error parsing nodes/a.py: 'Attribute' object has no attribute 'id'"].
Proof.
  destruct (nested_attribute_return_ends_module
              (__init__ "nodes") "nodes/a.py" Samples.nested_attribute
              (firstn 2 (ast_walk_links None Samples.nested_attribute))
              "B" (Samples.unit_body [Samples.a_b_c])
              [Samples.unit_marker "b" "Banana"]
              (Some Samples.nested_attribute)
              (skipn 3 (ast_walk_links None Samples.nested_attribute))
              (Samples.unit_marker "b" "Banana")
              (Samples.invoke_method [Samples.a_b_c])
              eq_refl eq_refl eq_refl eq_refl)
    as (e & _ & Hfile & Hnodes & Hfunctions).
  - right. left. reflexivity.
  - rewrite Hnodes, Hfunctions. repeat split.
Defined.

(** ** Records per marked class *)


(** C2. A module that parses holds three classes with the marker; the
    second of them returns [a.b.c(...)] from [invoke].  The run leaves one
    record, not three. *)
Theorem marked_classes_without_record :
  let listdir := [mkEntry "a.py" (Parsed Samples.nested_attribute)] in
  List.length (marked_classes listdir) = 3
  /\ map NodeInfo.name (nodes (extract_docs (__init__ "nodes") listdir))
     = ["a"]
  /\ stderr (extract_docs (__init__ "nodes") listdir)
     = ["Error parsing nodes/a.py: 'Attribute' object has no attribute 'id'"].
Proof. repeat split. Qed.

(** ** Forward references *)





(** * Further properties of the extractor *)

(** ** The directory listing *)

(** X1. Entries whose name does not end in [.py] play no part in a run:
    the result is that of the run over the Python files alone. *)
Theorem non_python_files_ignored self listdir :
  extract_docs self listdir
  = extract_docs self (filter is_python_file listdir).
Proof.
  unfold extract_docs.
  assert (H : forall s, scan_directory s listdir
                        = scan_directory s (filter is_python_file listdir)).
  { induction listdir as [|entry rest IH]; intros s; [reflexivity|].
    rewrite scan_directory_cons. simpl.
    destruct (is_python_file entry) eqn:E.
    - rewrite scan_directory_cons. apply IH.
    - unfold extract_file. unfold is_python_file in E. rewrite E. apply IH. }
  now rewrite H.
Qed.

(** X2. A Python file that cannot be read costs one line
    ["Error processing ..."] on the error channel and nothing else: the
    records of the run are those of the run without the file. *)
Theorem read_error_is_skipped self before unreadable after message :
  outcome unreadable = ReadError message ->
  is_python_file unreadable = true ->
  same_records (extract_docs self (before ++ unreadable :: after))
               (extract_docs self (before ++ after))
  /\ In ("Error processing "
         ++ os_path_join (directory self) (filename unreadable)
         ++ ": " ++ message)%string
        (stderr (extract_docs self (before ++ unreadable :: after))).
Proof.
  intros Hout Hpy.
  set (line := ("Error processing "
                ++ os_path_join (directory self) (filename unreadable)
                ++ ": " ++ message)%string).
  unfold extract_docs.
  rewrite !scan_directory_app, scan_directory_cons.
  set (s := scan_directory self before).
  assert (Hstep : extract_file s unreadable = print_stderr s line).
  { unfold extract_file. unfold is_python_file in Hpy. rewrite Hpy, Hout.
    unfold s. now rewrite (proj1 (scan_directory_frame before self)). }
  rewrite Hstep.
  pose proof (scan_directory_same after _ _ (print_stderr_same s line))
    as Hsame.
  split.
  - now apply sorted_same.
  - simpl.
    destruct (scan_directory_frame after (print_stderr s line))
      as (_ & more & ->).
    simpl. apply in_or_app. left. apply in_or_app. right. now left.
Qed.

Lemma read_error_is_skipped_witness :
  same_records
    (extract_docs (__init__ "nodes")
       [Samples.file "a.py" [Samples.out_class];
        mkEntry "b.py" (ReadError "'utf-8' codec can't decode byte 0xff");
        Samples.file "c.py" [Samples.helper]])
    (extract_docs (__init__ "nodes")
       [Samples.file "a.py" [Samples.out_class];
        Samples.file "c.py" [Samples.helper]]).
Proof.
  exact (proj1 (read_error_is_skipped (__init__ "nodes")
                  [Samples.file "a.py" [Samples.out_class]]
                  (mkEntry "b.py"
                     (ReadError "'utf-8' codec can't decode byte 0xff"))
                  [Samples.file "c.py" [Samples.helper]]
                  "'utf-8' codec can't decode byte 0xff" eq_refl eq_refl)).
Defined.

(** ** The registry across a run *)

Lemma dict_get_none_keys (V : Type) (d : PyDict.t V) k :
  PyDict.get k d = None <-> ~ In k (PyDict.keys d).
Proof.
  unfold PyDict.keys. induction d as [|[k' v'] rest IH]; simpl.
  - split; auto.
  - destruct (k' =? k)%string eqn:E.
    + apply String.eqb_eq in E. split; [discriminate|]. intros H.
      exfalso. apply H. now left.
    + apply String.eqb_neq in E. rewrite IH. split.
      * intros H [H'|H']; auto.
      * intros H H'. apply H. now right.
Qed.

Lemma dict_keys_set (V : Type) (d : PyDict.t V) k v :
  PyDict.keys (PyDict.set k v d)
  = match PyDict.get k d with
    | Some _ => PyDict.keys d
    | None => PyDict.keys d ++ [k]
    end.
Proof.
  destruct (PyDict.get k d) eqn:E.
  - eapply dict_keys_set_present; eauto.
  - now apply dict_keys_set_absent.
Qed.

Lemma registry_ok_set d name fields :
  registry_ok d ->
  registry_ok (PyDict.set name (OutputDefinitionInfo.mk name fields) d).
Proof.
  intros [Hnodup Hnames]. split.
  - rewrite dict_keys_set. destruct (PyDict.get name d) eqn:E; auto.
    apply dict_get_none_keys in E.
    apply NoDup_app; auto.
    + repeat constructor. intros [].
    + intros a Ha [<-|[]]. contradiction.
  - clear Hnodup. induction d as [|[k v] rest IH]; simpl.
    + repeat constructor.
    + inversion Hnames; subst.
      destruct (k =? name)%string eqn:E.
      * apply String.eqb_eq in E. subst. constructor; auto.
      * constructor; auto.
Qed.

Lemma first_pass_visit_registry self n :
  registry_ok (output_defs self) ->
  registry_ok (output_defs (first_pass_visit self n)).
Proof.
  intros H. destruct n; simpl; auto.
  unfold _process_output_definition.
  destruct (existsb _ _); simpl; auto.
  now apply registry_ok_set.
Qed.

Lemma first_pass_visit_keys self n :
  exists added,
    PyDict.keys (output_defs (first_pass_visit self n))
    = PyDict.keys (output_defs self) ++ added.
Proof.
  destruct n; simpl; try (exists []; now rewrite app_nil_r).
  unfold _process_output_definition.
  destruct (existsb _ _); simpl; [|exists []; now rewrite app_nil_r].
  rewrite dict_keys_set.
  destruct (PyDict.get name (output_defs self)); eauto.
  exists []. now rewrite app_nil_r.
Qed.

Lemma process_file_registry self parsed filepath :
  (registry_ok (output_defs self) ->
   registry_ok (output_defs (_process_file self parsed filepath)))
  /\ exists added,
      PyDict.keys (output_defs (_process_file self parsed filepath))
      = PyDict.keys (output_defs self) ++ added.
Proof.
  unfold _process_file. destruct parsed as [message|tree].
  - simpl. split; auto. exists []. now rewrite app_nil_r.
  - assert (Hdefs : output_defs
                      (match second_pass (first_pass self tree)
                               (ast_walk_links None tree) with
                       | (s, None) => s
                       | (s, Some e) =>
                           print_stderr s
                             ("Error parsing " ++ filepath ++ ": "
                              ++ exn_str e)
                       end)
                    = output_defs (first_pass self tree)).
    { pose proof (second_pass_keeps (ast_walk_links None tree)
                    (first_pass self tree)) as (_ & Ho & _).
      destruct (second_pass _ _) as [s [e|]]; simpl in *; auto. }
    rewrite Hdefs. clear Hdefs. unfold first_pass.
    generalize (ast_walk tree).
    intros items. revert self.
    induction items as [|n rest IH]; intros self; simpl.
    + split; auto. exists []. now rewrite app_nil_r.
    + destruct (IH (first_pass_visit self n)) as [Hok (added & ->)].
      destruct (first_pass_visit_keys self n) as (added' & ->).
      split.
      * intros H. apply Hok. now apply first_pass_visit_registry.
      * exists (added' ++ added). now rewrite app_assoc.
Qed.

Lemma second_pass_functions items :
  forall self,
    exists added,
      functions (fst (second_pass self items)) = functions self ++ added.
Proof.
  induction items as [|[n parent] rest IH]; intros self;
    cbn [second_pass].
  - exists []. simpl. now rewrite app_nil_r.
  - destruct (second_pass_visit self (n, parent)) as [self'|e] eqn:E.
    + destruct (IH self') as (added & ->).
      destruct n; simpl in E; try (injection E as <-; eauto).
      * apply process_invocation_ok in E.
        destruct E as (_ & -> & _). eauto.
      * destruct parent as [[]|]; injection E as <-; simpl; eauto.
        rewrite <- app_assoc. eauto.
    + exists []. simpl. now rewrite app_nil_r.
Qed.

Lemma extract_file_appends self entry :
  (registry_ok (output_defs self) ->
   registry_ok (output_defs (extract_file self entry)))
  /\ (exists added,
        PyDict.keys (output_defs (extract_file self entry))
        = PyDict.keys (output_defs self) ++ added)
  /\ (exists added, nodes (extract_file self entry) = nodes self ++ added)
  /\ (exists added,
        functions (extract_file self entry) = functions self ++ added).
Proof.
  assert (Hnil : forall (A : Type) (l : list A), exists added, l = l ++ added)
    by (intros A l; exists []; now rewrite app_nil_r).
  unfold extract_file. destruct (PyStr.endswith _ _); [|auto 6].
  destruct (outcome entry) as [message|message|tree];
    [simpl; auto 6 | unfold _process_file; simpl; auto 6 |].
  destruct (process_file_registry self (inr tree)
                (os_path_join (directory self) (filename entry)))
    as [Hok Hkeys].
  refine (conj Hok (conj Hkeys _)).
  unfold _process_file.
  pose proof (second_pass_keeps (ast_walk_links None tree)
                (first_pass self tree)) as (_ & _ & _ & added & Hn).
  pose proof (first_pass_items_keeps (ast_walk tree) self)
    as (_ & Hn' & Hf' & _).
  fold (first_pass self tree) in Hn', Hf'.
  rewrite Hn' in Hn.
  pose proof (second_pass_functions (ast_walk_links None tree)
                (first_pass self tree)) as (added' & Hf).
  rewrite Hf' in Hf.
  destruct (second_pass (first_pass self tree) (ast_walk_links None tree))
    as [s [e|]]; simpl in *; eauto.
Qed.

Lemma scan_directory_appends listdir :
  forall self,
    (registry_ok (output_defs self) ->
     registry_ok (output_defs (scan_directory self listdir)))
    /\ (exists added,
          PyDict.keys (output_defs (scan_directory self listdir))
          = PyDict.keys (output_defs self) ++ added)
    /\ (exists added, nodes (scan_directory self listdir) = nodes self ++ added)
    /\ (exists added,
          functions (scan_directory self listdir) = functions self ++ added).
Proof.
  induction listdir as [|entry rest IH]; intros self.
  - simpl. refine (conj (fun H => H) (conj _ (conj _ _)));
      exists []; now rewrite app_nil_r.
  - rewrite scan_directory_cons.
    destruct (IH (extract_file self entry))
      as (Hok & (k & ->) & (n & ->) & (f & ->)).
    destruct (extract_file_appends self entry)
      as (Hok' & (k' & ->) & (n' & ->) & (f' & ->)).
    refine (conj (fun H => Hok (Hok' H)) (conj _ (conj _ _))).
    + exists (k' ++ k). now rewrite app_assoc.
    + exists (n' ++ n). now rewrite app_assoc.
    + exists (f' ++ f). now rewrite app_assoc.
Qed.

(** X3. Whatever the directory holds, the registry of a fresh extractor
    ends with every name once and every definition stored under its own
    name. *)
Theorem registry_holds_each_name_once directory listdir :
  registry_ok (output_defs (extract_docs (__init__ directory) listdir)).
Proof.
  unfold extract_docs. simpl.
  apply (proj1 (scan_directory_appends listdir (__init__ directory))).
  split; constructor.
Qed.

(** X4. Reading further files only appends: the names of the registry,
    the functions and, before the sort, the records of a run over
    [first ++ more] begin with those of the run over [first], in the same
    order. *)
Theorem later_files_only_append self first more :
  (exists added,
     PyDict.keys (output_defs (extract_docs self (first ++ more)))
     = PyDict.keys (output_defs (extract_docs self first)) ++ added)
  /\ (exists added,
        functions (extract_docs self (first ++ more))
        = functions (extract_docs self first) ++ added)
  /\ (exists added,
        nodes (scan_directory self (first ++ more))
        = nodes (scan_directory self first) ++ added).
Proof.
  unfold extract_docs. simpl. rewrite scan_directory_app.
  destruct (scan_directory_appends more (scan_directory self first))
    as (_ & Hk & Hn & Hf).
  auto.
Qed.

(** ** Runs without an exception *)





Lemma small_ints_children n :
  small_ints_node n = true ->
  Forall (fun child => small_ints_node child = true) (iter_child_nodes n).
Proof.
  intros H. apply Forall_forall. intros child Hin.
  destruct n; simpl in *; try contradiction.
  - rewrite forallb_forall in H. auto.
  - apply andb_prop in H. destruct H as [H _].
    rewrite forallb_forall in H. auto.
  - apply andb_prop in H. destruct H as [H _].
    apply andb_prop in H. destruct H as [H _].
    rewrite forallb_forall in H. auto.
  - rewrite forallb_forall in H. auto.
Qed.

Lemma walk_todo_small_ints fuel :
  forall todo,
    Forall (fun item => small_ints_node (fst item) = true) todo ->
    Forall (fun item => small_ints_node (fst item) = true)
           (walk_todo fuel todo).
Proof.
  induction fuel as [|fuel IH]; intros [|[n parent] rest] H; simpl;
    try constructor.
  - now inversion H.
  - apply IH. inversion H; subst. apply Forall_app. split; auto.
    unfold link_children. apply Forall_forall. intros item Hin.
    apply in_map_iff in Hin. destruct Hin as (child & <- & Hchild).
    simpl. pose proof (small_ints_children n H2) as Hc.
    rewrite Forall_forall in Hc. auto.
Qed.

(** In a tree within the digit limit every renderer call of the two
    passes returns, and returns the text the passes are stated with: on
    such trees [str(node.value)] does not raise, and the exception of line
    244 is the only one left. *)
Lemma renderer_calls_within_limit tree cls body decorator_list :
  small_ints_node tree = true ->
  In (ClassDef cls body decorator_list) (ast_walk tree) ->
  Forall (fun site =>
            DigitLimit._get_type_annotation site
            = DigitLimit.Rendered (_get_type_annotation site)
            /\ DigitLimit._get_default_value site
               = DigitLimit.Rendered (_get_default_value site))
         (rendering_sites body).
Proof.
  intros Htree Hin.
  assert (Hclass : small_ints_node (ClassDef cls body decorator_list) = true).
  { unfold ast_walk, ast_walk_links in Hin.
    apply in_map_iff in Hin. destruct Hin as ([n parent] & Hn & Hin).
    simpl in Hn. subst n.
    assert (Hw : Forall (fun item => small_ints_node (fst item) = true)
                        (walk_todo (node_count tree) [(tree, None)])).
    { apply walk_todo_small_ints. constructor; [exact Htree | constructor]. }
    rewrite Forall_forall in Hw. apply (Hw _ Hin). }
  simpl in Hclass. apply andb_prop in Hclass. destruct Hclass as [Hbody _].
  rewrite forallb_forall in Hbody.
  apply Forall_forall. intros site Hsite.
  unfold rendering_sites in Hsite. apply in_flat_map in Hsite.
  destruct Hsite as (item & Hitem & Hsite).
  specialize (Hbody item Hitem).
  assert (Hsmall : small_ints site = true).
  { destruct item; simpl in Hbody, Hsite; try contradiction.
    - destruct returns as [returns|]; [|contradiction].
      destruct Hsite as [<-|[]].
      apply andb_prop in Hbody. destruct Hbody as [_ H]. exact H.
    - apply andb_prop in Hbody. destruct Hbody as [Hbody Hvalue].
      apply andb_prop in Hbody. destruct Hbody as [_ Hann].
      destruct value as [[]|];
        try (destruct Hsite as [<-|[]]; exact Hann).
      destruct Hsite as [<-|Hsite]; [exact Hann|].
      simpl in Hvalue. apply andb_prop in Hvalue.
      destruct Hvalue as [_ Hkws]. rewrite forallb_forall in Hkws.
      apply in_map_iff in Hsite. destruct Hsite as (kw & <- & Hkw).
      auto. }
  split.
  - now apply digit_limit_type_agrees.
  - now apply digit_limit_default_agrees.
Qed.












(** ** Classes at any depth *)

(** X8. A class with the marker is extracted wherever it stands in the
    module, nested in a function, a class or a block: when the second
    loop ends without an exception, its record is in [nodes]. *)
Theorem nested_classes_are_extracted
        self filepath tree cls body decorator_list decorator :
  In (ClassDef cls body decorator_list) (subnodes tree) ->
  find (is_marker "invocation") decorator_list = Some decorator ->
  snd (second_pass (first_pass self tree) (ast_walk_links None tree)) = None ->
  exists node_info,
    build_node_info (output_defs (first_pass self tree)) decorator body
    = Ok node_info
    /\ In node_info (nodes (_process_file self (inr tree) filepath)).
Proof.
  intros Hin Hmark Hrun.
  apply (Permutation_in _ (Permutation_sym (ast_walk_subnodes tree))) in Hin.
  rewrite <- (ast_walk_map_fst None tree) in Hin.
  apply in_map_iff in Hin. destruct Hin as ([n parent] & Hn & Hin).
  simpl in Hn. subst n.
  unfold _process_file.
  destruct (second_pass (first_pass self tree) (ast_walk_links None tree))
    as [self' stop] eqn:E.
  simpl in Hrun. subst stop.
  eapply second_pass_records; eauto.
Qed.

Lemma nested_classes_are_extracted_witness :
  exists node_info,
    NodeInfo.name node_info = "inner"
    /\ In node_info
          (nodes (_process_file (__init__ "nodes")
                    (inr (Module
                            [FunctionDef "factory"
                               [OtherNode "If"
                                  [ClassDef "Inner" (Samples.unit_body [])
                                     [Samples.unit_marker "inner" "Inner"]]]
                               [] None]))
                    "nodes/a.py")).
Proof.
  destruct (nested_classes_are_extracted
              (__init__ "nodes") "nodes/a.py"
              (Module
                 [FunctionDef "factory"
                    [OtherNode "If"
                       [ClassDef "Inner" (Samples.unit_body [])
                          [Samples.unit_marker "inner" "Inner"]]]
                    [] None])
              "Inner" (Samples.unit_body [])
              [Samples.unit_marker "inner" "Inner"]
              (Samples.unit_marker "inner" "Inner"))
    as (node_info & Hbuild & Hin).
  - simpl. auto 6.
  - reflexivity.
  - reflexivity.
  - exists node_info. split; [|exact Hin].
    injection Hbuild as <-. reflexivity.
Defined.

(** ** Parent links *)

Lemma walk_todo_parent_links root fuel :
  forall todo,
    Forall (parent_link_ok root) todo ->
    Forall (parent_link_ok root) (walk_todo fuel todo).
Proof.
  induction fuel as [|fuel IH]; intros [|[n parent] rest] H; simpl;
    try constructor.
  - now inversion H.
  - apply IH. inversion H; subst. apply Forall_app. split; auto.
    unfold link_children. apply Forall_forall. intros item Hin.
    apply in_map_iff in Hin. destruct Hin as (child & <- & Hchild).
    exact Hchild.
Qed.

(** Every node met by the walk of a parsed module carries the parent
    link of its place in the tree: none for the module itself, and for
    any other node a node that has it among its children. *)
Lemma parent_links_follow_tree root :
  Forall (parent_link_ok root) (ast_walk_links None root).
Proof.
  apply walk_todo_parent_links. repeat constructor.
Qed.

(** ** Fields *)



(** ** The two renderers *)

(** X10. On expressions made of names, constants and calls of a name on
    such arguments, a default value is rendered exactly as a type
    annotation is. *)
Theorem renderers_agree_on_common_shapes :
  forall n,
    common_shape n = true -> _get_default_value n = _get_type_annotation n.
Proof.
  fix IH 1. intros n H. destruct n; try discriminate; try reflexivity.
  destruct n; try discriminate. simpl in H |- *.
  assert (Hargs : map _get_default_value args
                  = map _get_type_annotation args).
  { induction args as [|arg rest IHargs]; [reflexivity|].
    simpl in H. apply andb_prop in H. destruct H as [Harg Hrest].
    simpl. f_equal; auto. }
  now rewrite Hargs.
Qed.

Lemma renderers_agree_on_common_shapes_witness :
  _get_default_value
    (Call (Name "Field") [Constant (CInt 3); Name "x";
                          Call (Name "g") [Constant CNone] []] [])
  = _get_type_annotation
      (Call (Name "Field") [Constant (CInt 3); Name "x";
                            Call (Name "g") [Constant CNone] []] []).
Proof.
  exact (renderers_agree_on_common_shapes
           (Call (Name "Field") [Constant (CInt 3); Name "x";
                                 Call (Name "g") [Constant CNone] []] [])
           eq_refl).
Defined.

(** ** Top-level functions *)

Lemma second_pass_function_records items :
  forall self self',
    second_pass self items = (self', None) ->
    functions self'
    = functions self ++ flat_map linked_function_record items.
Proof.
  induction items as [|[n parent] rest IH]; intros self self' Hrun;
    cbn [second_pass] in Hrun.
  - injection Hrun as <-. simpl. now rewrite app_nil_r.
  - destruct (second_pass_visit self (n, parent)) as [self1|e] eqn:E;
      [|discriminate].
    rewrite (IH _ _ Hrun). cbn [flat_map]. rewrite app_assoc. f_equal.
    destruct n; simpl in E;
      try (injection E as <-; destruct parent as [[]|]; simpl;
           now rewrite app_nil_r).
    + apply process_invocation_ok in E. destruct E as (_ & -> & _).
      destruct parent as [[]|]; simpl; now rewrite app_nil_r.
    + destruct parent as [[]|]; injection E as <-; simpl;
        try now rewrite app_nil_r.
      reflexivity.
Qed.

Lemma module_free_children n :
  module_free n = true ->
  Forall (fun item => below_top_level item = true) (link_children n).
Proof.
  intros H. unfold link_children. apply Forall_forall. intros item Hin.
  apply in_map_iff in Hin. destruct Hin as (child & <- & Hchild).
  unfold below_top_level. simpl.
  destruct n; simpl in *; try discriminate; try contradiction;
    rewrite forallb_forall in H; now rewrite (H child Hchild).
Qed.

Lemma walk_todo_below_top_level fuel :
  forall todo,
    Forall (fun item => below_top_level item = true) todo ->
    Forall (fun item => below_top_level item = true) (walk_todo fuel todo).
Proof.
  induction fuel as [|fuel IH]; intros [|[n parent] rest] H; simpl;
    try constructor.
  - now inversion H.
  - apply IH. inversion H; subst. apply Forall_app. split; auto.
    apply module_free_children.
    unfold below_top_level in H2. simpl in H2.
    now apply andb_prop in H2.
Qed.

(** The walk yields the queue as it stands before anything pushed later:
    the nodes at the front of the queue come first, in their order. *)
Lemma walk_todo_front front :
  forall fuel back,
    todo_count (front ++ back) <= fuel ->
    Forall (fun item => module_free (fst item) = true) front ->
    Forall (fun item => below_top_level item = true) back ->
    exists rest,
      walk_todo fuel (front ++ back) = front ++ rest
      /\ Forall (fun item => below_top_level item = true) rest.
Proof.
  induction front as [|[n parent] front IH]; intros fuel back Hfuel Hf Hb.
  - exists (walk_todo fuel back). split; auto.
    now apply walk_todo_below_top_level.
  - simpl app in *. rewrite todo_count_cons in Hfuel.
    destruct fuel as [|fuel]; [lia|]. cbn [walk_todo].
    inversion Hf; subst. simpl in H1.
    rewrite <- app_assoc.
    destruct (IH fuel (back ++ link_children n)) as (rest & -> & Hrest).
    + rewrite app_assoc. apply le_S_n. exact Hfuel.
    + assumption.
    + apply Forall_app. split; auto. now apply module_free_children.
    + exists rest. split; auto.
Qed.

Lemma below_top_level_no_record items :
  Forall (fun item => below_top_level item = true) items ->
  flat_map linked_function_record items = [].
Proof.
  induction 1 as [|[n parent] rest H _ IH]; simpl; auto.
  rewrite IH, app_nil_r.
  unfold below_top_level in H. simpl in H.
  apply andb_prop in H. destruct H as [_ H].
  destruct parent as [[]|]; try discriminate; reflexivity.
Qed.

Lemma module_children_function_records mbody children :
  flat_map linked_function_record
           (map (fun child => (child, Some (Module mbody))) children)
  = flat_map function_record children.
Proof.
  induction children as [|child rest IH]; simpl; auto.
  now rewrite IH.
Qed.

Lemma module_walk_function_records body :
  forallb module_free body = true ->
  flat_map linked_function_record (ast_walk_links None (Module body))
  = flat_map function_record body.
Proof.
  intros Hfree. unfold ast_walk_links. cbn [node_count walk_todo].
  cbn [flat_map linked_function_record app].
  destruct (walk_todo_front (link_children (Module body))
              (list_sum (map node_count body)) [])
    as (rest & Hwalk & Hrest).
  - rewrite app_nil_r.
    pose proof (todo_count_link_children (Module body)) as H.
    simpl in H. lia.
  - unfold link_children. simpl. apply Forall_forall. intros item Hin.
    apply in_map_iff in Hin. destruct Hin as (child & <- & Hchild).
    simpl. rewrite forallb_forall in Hfree. auto.
  - constructor.
  - rewrite app_nil_r in Hwalk. simpl app. rewrite Hwalk, flat_map_app.
    rewrite (below_top_level_no_record rest Hrest), app_nil_r.
    unfold link_children. simpl. apply module_children_function_records.
Qed.

(** X11. When the second loop of a module ends without an exception, the
    module adds to [functions] one record per function definition among
    its own statements, in source order, and nothing for methods or for
    functions nested in a function, a class or a block. *)
Theorem top_level_functions_recorded self filepath body :
  forallb module_free body = true ->
  snd (second_pass (first_pass self (Module body))
                   (ast_walk_links None (Module body))) = None ->
  functions (_process_file self (inr (Module body)) filepath)
  = functions self ++ flat_map function_record body.
Proof.
  intros Hfree Hrun. unfold _process_file.
  destruct (second_pass (first_pass self (Module body))
                        (ast_walk_links None (Module body)))
    as [self' stop] eqn:E.
  simpl in Hrun. subst stop.
  rewrite (second_pass_function_records _ _ _ E).
  rewrite (module_walk_function_records body Hfree).
  unfold first_pass.
  now rewrite (proj1 (proj2 (proj2 (first_pass_items_keeps
                                      (ast_walk (Module body)) self)))).
Qed.

Lemma top_level_functions_recorded_witness :
  functions
    (_process_file (__init__ "nodes")
       (inr (Module
               [Samples.helper;
                ClassDef "Plain"
                  [FunctionDef "method" [Expr (Constant (CStr "m"))] [] None]
                  [];
                FunctionDef "outer"
                  [FunctionDef "inner" [] [] None] [] None]))
       "nodes/a.py")
  = [] ++ [FunctionInfo.mk "helper" "Helps."; FunctionInfo.mk "outer" ""].
Proof.
  exact (top_level_functions_recorded (__init__ "nodes") "nodes/a.py"
           [Samples.helper;
            ClassDef "Plain"
              [FunctionDef "method" [Expr (Constant (CStr "m"))] [] None]
              [];
            FunctionDef "outer" [FunctionDef "inner" [] [] None] [] None]
           eq_refl eq_refl).
Defined.

(** ** Docstring summaries *)

Lemma has_char_lstrip c s :
  has_char c s = false -> has_char c (PyStr.lstrip s) = false.
Proof.
  induction s as [|c' rest IH]; simpl; auto.
  intros H. apply orb_false_elim in H. destruct H as [Hc Hrest].
  destruct (PyStr.isspace c'); auto.
  simpl. now rewrite Hc, Hrest.
Qed.

Lemma has_char_rstrip c s :
  has_char c s = false -> has_char c (PyStr.rstrip s) = false.
Proof.
  induction s as [|c' rest IH]; simpl; auto.
  intros H. apply orb_false_elim in H. destruct H as [Hc Hrest].
  specialize (IH Hrest).
  destruct (PyStr.rstrip rest) as [|k kept].
  - destruct (PyStr.isspace c'); simpl; auto. now rewrite Hc.
  - simpl in *. now rewrite Hc, IH.
Qed.

Lemma has_char_strip c s :
  has_char c s = false -> has_char c (PyStr.strip s) = false.
Proof.
  intros H. unfold PyStr.strip. now apply has_char_rstrip, has_char_lstrip.
Qed.

Lemma split_newline_first s :
  has_char PyStr.newline (fst (PyStr.split_newline s)) = false.
Proof.
  induction s as [|c rest IH]; simpl; auto.
  destruct (Ascii.eqb c PyStr.newline) eqn:E; simpl; auto.
  destruct (PyStr.split_newline rest) as [first more]. simpl in *.
  now rewrite E, IH.
Qed.

Lemma rstrip_idempotent s : PyStr.rstrip (PyStr.rstrip s) = PyStr.rstrip s.
Proof.
  induction s as [|c rest IH]; simpl; auto.
  destruct (PyStr.rstrip rest) as [|k kept] eqn:E.
  - destruct (PyStr.isspace c) eqn:S; simpl; auto. now rewrite S.
  - remember (String k kept) as tail. simpl. rewrite IH.
    subst tail. reflexivity.
Qed.

Lemma lstrip_head s :
  PyStr.lstrip s = EmptyString
  \/ exists c rest,
      PyStr.lstrip s = String c rest /\ PyStr.isspace c = false.
Proof.
  induction s as [|c rest IH]; simpl; auto.
  destruct (PyStr.isspace c) eqn:E; auto.
  right. eauto.
Qed.

Lemma rstrip_keeps_head c rest :
  PyStr.isspace c = false ->
  exists rest', PyStr.rstrip (String c rest) = String c rest'.
Proof.
  intros H. simpl. destruct (PyStr.rstrip rest); [rewrite H|]; eauto.
Qed.

Lemma strip_idempotent s : PyStr.strip (PyStr.strip s) = PyStr.strip s.
Proof.
  unfold PyStr.strip.
  destruct (lstrip_head s) as [->|(c & rest & -> & Hc)]; [reflexivity|].
  destruct (rstrip_keeps_head c rest Hc) as (rest' & E).
  rewrite E at 1. simpl PyStr.lstrip. rewrite Hc. rewrite <- E.
  apply rstrip_idempotent.
Qed.

Lemma split_newline_spec s :
  match PyStr.split_newline s with
  | (first, Some rest) => s = (first ++ String PyStr.newline rest)%string
  | (first, None) => s = first
  end.
Proof.
  induction s as [|c rest IH]; simpl; auto.
  destruct (Ascii.eqb c PyStr.newline) eqn:E.
  - apply Ascii.eqb_eq in E. now subst c.
  - destruct (PyStr.split_newline rest) as [first [more|]]; simpl;
      now rewrite IH at 1.
Qed.

(** X12. The summary kept for a function or a class is one trimmed line:
    it holds no line feed and no white space at either end, and the long
    description of a class is trimmed too.  Without a docstring all of
    them are empty.  With one, the summary is the trimmed text before the
    first line feed of the trimmed docstring, and the long description is
    the trimmed text after it, or empty when there is no line feed. *)
Theorem summaries_are_one_trimmed_line body :
  (has_char PyStr.newline (function_docstring body) = false
   /\ PyStr.strip (function_docstring body) = function_docstring body
   /\ has_char PyStr.newline (fst (class_docstring body)) = false
   /\ PyStr.strip (fst (class_docstring body)) = fst (class_docstring body)
   /\ PyStr.strip (snd (class_docstring body)) = snd (class_docstring body))
  /\ (docstring_of body = None ->
      function_docstring body = EmptyString
      /\ class_docstring body = (EmptyString, EmptyString))
  /\ (forall value,
         docstring_of body = Some value ->
         exists first,
           has_char PyStr.newline first = false
           /\ function_docstring body = PyStr.strip first
           /\ fst (class_docstring body) = PyStr.strip first
           /\ ((PyStr.strip value = first
                /\ snd (class_docstring body) = EmptyString)
               \/ exists rest,
                   PyStr.strip value
                   = (first ++ String PyStr.newline rest)%string
                   /\ snd (class_docstring body) = PyStr.strip rest)).
Proof.
  refine (conj _ (conj _ _)).
  - unfold function_docstring, class_docstring.
    destruct body as [|[| | | |[| [] | | | | | | | |]| |] rest];
      try (repeat split; reflexivity).
    destruct (PyStr.truthy (PyStr.strip s)); [|repeat split; reflexivity].
    pose proof (split_newline_first (PyStr.strip s)) as Hfirst.
    destruct (PyStr.split_newline (PyStr.strip s)) as [first more].
    simpl in *.
    refine (conj _ (conj _ (conj _ (conj _ _)))).
    + now apply has_char_strip.
    + apply strip_idempotent.
    + now apply has_char_strip.
    + apply strip_idempotent.
    + destruct more; [apply strip_idempotent | reflexivity].
  - unfold docstring_of, function_docstring, class_docstring.
    destruct body as [|[| | | |[| [] | | | | | | | |]| |] rest];
      try discriminate; auto.
  - intros value Hdoc.
    unfold docstring_of in Hdoc.
    destruct body as [|[| | | |[| [] | | | | | | | |]| |] rest];
      try discriminate.
    injection Hdoc as ->.
    unfold function_docstring, class_docstring.
    destruct (PyStr.truthy (PyStr.strip value)) eqn:T.
    + pose proof (split_newline_first (PyStr.strip value)) as Hfirst.
      pose proof (split_newline_spec (PyStr.strip value)) as Hspec.
      destruct (PyStr.split_newline (PyStr.strip value)) as [first more].
      simpl in Hfirst. exists first. simpl.
      refine (conj Hfirst (conj eq_refl (conj eq_refl _))).
      destruct more as [rest'|]; [right; eauto | left; auto].
    + exists EmptyString. simpl.
      refine (conj eq_refl (conj eq_refl (conj eq_refl _))).
      left. split; auto.
      destruct (PyStr.strip value); [reflexivity | discriminate].
Qed.

Lemma summaries_are_one_trimmed_line_witness :
  (function_docstring [Expr (Constant (CInt 1))] = EmptyString
   /\ class_docstring [Expr (Constant (CInt 1))]
      = (EmptyString, EmptyString))
  /\ fst (class_docstring (Samples.unit_body [])) = "Adds things."
  /\ snd (class_docstring (Samples.unit_body [])) = "Longer text."
  /\ exists first,
      has_char PyStr.newline first = false
      /\ function_docstring (Samples.unit_body []) = PyStr.strip first
      /\ fst (class_docstring (Samples.unit_body [])) = PyStr.strip first
      /\ ((PyStr.strip "Adds things.
Longer text. " = first
           /\ snd (class_docstring (Samples.unit_body [])) = EmptyString)
          \/ exists rest,
              PyStr.strip "Adds things.
Longer text. " = (first ++ String PyStr.newline rest)%string
              /\ snd (class_docstring (Samples.unit_body []))
                 = PyStr.strip rest).
Proof.
  refine (conj _ (conj eq_refl (conj eq_refl _))).
  - exact (proj1 (proj2 (summaries_are_one_trimmed_line
                           [Expr (Constant (CInt 1))])) eq_refl).
  - exact (proj2 (proj2 (summaries_are_one_trimmed_line
                           (Samples.unit_body [])))
             _ eq_refl).
Defined.

(** ** Link targets *)

Lemma has_char_remove_char c old s :
  has_char c (remove_char old s)
  = negb (Ascii.eqb c old) && has_char c s.
Proof.
  induction s as [|c' rest IH]; simpl.
  - now rewrite andb_false_r.
  - destruct (Ascii.eqb c' old) eqn:E.
    + rewrite IH. apply Ascii.eqb_eq in E. subst c'.
      rewrite (Ascii.eqb_sym old c).
      destruct (Ascii.eqb c old); reflexivity.
    + simpl. rewrite IH.
      destruct (Ascii.eqb c' c) eqn:E'; simpl.
      * apply Ascii.eqb_eq in E'. subst c'. now rewrite E.
      * reflexivity.
Qed.

Lemma has_char_remove_all c chars :
  forall s,
    has_char c (fold_left (fun _title punctuation =>
                             remove_char punctuation _title) chars s)
    = negb (existsb (Ascii.eqb c) chars) && has_char c s.
Proof.
  induction chars as [|old rest IH]; intros s; simpl; auto.
  rewrite IH, has_char_remove_char.
  destruct (Ascii.eqb c old), (existsb (Ascii.eqb c) rest); reflexivity.
Qed.

Lemma lower_char_not_capital c : is_ascii_capital (PyStr.lower_char c) = false.
Proof. destruct c as [[] [] [] [] [] [] [] []]; reflexivity. Qed.

Lemma has_char_lowered c title :
  has_char c (replace_char " " "-" (PyStr.lower title)) = true ->
  Ascii.eqb c " " = false /\ is_ascii_capital c = false.
Proof.
  induction title as [|c' rest IH]; simpl; [discriminate|].
  intros H. apply orb_prop in H. destruct H as [H|H]; auto.
  apply Ascii.eqb_eq in H. subst c.
  destruct (Ascii.eqb (PyStr.lower_char c') " ") eqn:E.
  - split; reflexivity.
  - split; [exact E | apply lower_char_not_capital].
Qed.

(** X13. The link target computed for a title holds no space, no capital
    letter [A] to [Z] and none of the punctuation characters of the loop,
    whatever the title. *)
Theorem anchor_has_no_dropped_character title c :
  dropped_from_anchor c = true -> has_char c (anchor title) = false.
Proof.
  unfold dropped_from_anchor, anchor. intros H.
  rewrite has_char_remove_all.
  destruct (existsb (Ascii.eqb c) punctuation); [reflexivity|].
  simpl. rewrite orb_false_r in H.
  destruct (has_char c (replace_char " " "-" (PyStr.lower title))) eqn:E;
    [|reflexivity].
  apply has_char_lowered in E. destruct E as [E1 E2].
  rewrite E1, E2 in H. discriminate.
Qed.

Lemma anchor_has_no_dropped_character_witness :
  anchor "Image (RGB) to Mask!" = "image-rgb-to-mask"
  /\ has_char "(" (anchor "Image (RGB) to Mask!") = false.
Proof.
  split; [reflexivity|].
  exact (anchor_has_no_dropped_character "Image (RGB) to Mask!" "(" eq_refl).
Defined.

(** ** The directory argument *)

Lemma last_char_none s : last_char s = None -> s = EmptyString.
Proof.
  induction s as [|c rest IH]; simpl; auto.
  destruct rest; [discriminate|]. intros H. specialize (IH H). discriminate.
Qed.

Lemma last_char_drop_last s c :
  last_char s = Some c ->
  s = (drop_last s ++ String c EmptyString)%string
  /\ String.length s = S (String.length (drop_last s)).
Proof.
  induction s as [|c' rest IH]; [discriminate|].
  destruct rest as [|c'' rest'].
  - simpl. intros [= ->]. auto.
  - intros H. change (last_char (String c'' rest') = Some c) in H.
    destruct (IH H) as [E L].
    change (drop_last (String c' (String c'' rest')))
      with (String c' (drop_last (String c'' rest'))).
    split.
    + simpl. f_equal. exact E.
    + cbn [String.length] in *. f_equal. exact L.
Qed.

Lemma string_append_assoc (a b c : string) :
  ((a ++ b) ++ c = a ++ (b ++ c))%string.
Proof. induction a as [|x a IH]; simpl; auto. now rewrite IH. Qed.

Lemma string_append_empty (a : string) : (a ++ "")%string = a.
Proof. induction a as [|x a IH]; simpl; auto. now rewrite IH. Qed.

Lemma string_length_append (a b : string) :
  String.length (a ++ b)%string = String.length a + String.length b.
Proof. induction a as [|x a IH]; simpl; auto. Qed.

Lemma all_chars_append p (a b : string) :
  all_chars p (a ++ b)%string = all_chars p a && all_chars p b.
Proof.
  induction a as [|x a IH]; simpl; auto. now rewrite IH, andb_assoc.
Qed.

(** What the loop returns on [current], with [dropped] the trailers
    already taken off its end. *)
Lemma strip_directory_loop_spec fuel :
  forall current dropped,
    String.length current < fuel ->
    all_chars trailer dropped = true ->
    match strip_directory_loop fuel current with
    | Stripped d =>
        exists dropped' c,
          (current ++ dropped = d ++ dropped')%string
          /\ all_chars trailer dropped' = true
          /\ last_char d = Some c /\ trailer c = false
    | IndexError => all_chars trailer (current ++ dropped)%string = true
    | OutOfFuel => False
    end.
Proof.
  induction fuel as [|fuel IH]; intros current dropped Hfuel Hdropped;
    [lia|].
  cbn [strip_directory_loop].
  destruct (last_char current) as [c|] eqn:L.
  - destruct (trailer c) eqn:T.
    + destruct (last_char_drop_last current c L) as [E Hlen].
      specialize (IH (drop_last current)
                     (String c EmptyString ++ dropped)%string).
      rewrite <- string_append_assoc, <- E in IH.
      apply IH; [lia|]. simpl. now rewrite T.
    + exists dropped, c. auto.
  - apply last_char_none in L. subst current. exact Hdropped.
Qed.

(** X14. The loop that cleans the directory argument of [make_docs] takes
    the quotes, backslashes and slashes off its end and stops at the first
    other character; on an argument made of such characters only, the
    empty one included, it ends with the [IndexError] of reading the last
    character of an empty text. *)
Theorem strip_directory_result args_directory :
  match strip_directory args_directory with
  | Stripped d =>
      exists dropped c,
        (args_directory = d ++ dropped)%string
        /\ all_chars trailer dropped = true
        /\ last_char d = Some c /\ trailer c = false
  | IndexError => all_chars trailer args_directory = true
  | OutOfFuel => False
  end.
Proof.
  pose proof (strip_directory_loop_spec (S (String.length args_directory))
                args_directory EmptyString (Nat.lt_succ_diag_r _) eq_refl)
    as H.
  rewrite string_append_empty in H. exact H.
Qed.

Lemma posixpath_basename_not_empty d c :
  last_char d = Some c -> Ascii.eqb c "/" = false ->
  posixpath_basename d <> EmptyString.
Proof.
  induction d as [|x rest IH]; [discriminate|].
  intros L Hc. simpl posixpath_basename.
  destruct (has_char "/" rest) eqn:S.
  - destruct rest as [|y rest']; [discriminate|]. apply IH; auto.
  - destruct (Ascii.eqb x "/") eqn:X; [|discriminate].
    destruct rest as [|y rest']; [|discriminate].
    simpl in L. injection L as <-. congruence.
Qed.

(** X15. On a POSIX platform, where [os.path.basename] is
    [posixpath.basename]: when the loop on the directory argument ends
    without an exception, the directory that is left has a last path
    component that is not empty, so the default output file is never the
    bare [.md]. *)
Theorem posix_default_output_file_has_stem args_directory d :
  strip_directory args_directory = Stripped d ->
  posixpath_basename d <> EmptyString
  /\ posix_default_output_file d <> ".md".
Proof.
  intros H.
  pose proof (strip_directory_loop_spec (S (String.length args_directory))
                args_directory EmptyString (Nat.lt_succ_diag_r _) eq_refl)
    as Hspec.
  fold (strip_directory args_directory) in Hspec. rewrite H in Hspec.
  destruct Hspec as (dropped & c & _ & _ & L & T).
  assert (Hslash : Ascii.eqb c "/" = false).
  { unfold trailer in T. simpl in T.
    repeat (apply orb_false_elim in T; destruct T as [? T]).
    assumption. }
  pose proof (posixpath_basename_not_empty d c L Hslash) as Hb.
  split; auto. unfold posix_default_output_file. intros Heq.
  apply (f_equal String.length) in Heq.
  rewrite string_length_append in Heq.
  destruct (posixpath_basename d); [congruence|]. simpl in Heq. lia.
Qed.

Lemma posix_default_output_file_has_stem_witness :
  strip_directory "nodes/pack/'" = Stripped "nodes/pack"
  /\ posix_default_output_file "nodes/pack" = "pack.md"
  /\ posixpath_basename "nodes/pack" <> EmptyString.
Proof.
  refine (conj eq_refl (conj eq_refl _)).
  exact (proj1 (posix_default_output_file_has_stem "nodes/pack/'"
                  "nodes/pack" eq_refl)).
Defined.


(** ** Untitled records and empty outputs *)

Lemma lower_empty s : PyStr.lower s = EmptyString -> s = EmptyString.
Proof. destruct s; [reflexivity | discriminate]. Qed.

(** X16. A record without a title, as a marker without a literal [title]
    leaves it, is never placed after a record that has one. *)
Theorem untitled_records_come_first self listdir i j a b :
  nth_error (nodes (extract_docs self listdir)) i = Some a ->
  nth_error (nodes (extract_docs self listdir)) j = Some b ->
  NodeInfo.title a = EmptyString ->
  NodeInfo.title b <> EmptyString ->
  i < j.
Proof.
  unfold extract_docs. simpl. intros Hi Hj Ha Hb.
  assert (Hsorted : StronglySorted (not_after NodeInfo.__lt__)
                      (list_sort NodeInfo.__lt__
                         (nodes (scan_directory self listdir))))
    by (apply list_sort_sorted; [exact node_lt_asym | exact node_le_trans]).
  assert (Hlt : NodeInfo.__lt__ a b = true).
  { unfold NodeInfo.__lt__. rewrite Ha. simpl.
    destruct (PyStr.lower (NodeInfo.title b)) eqn:E; [|reflexivity].
    apply lower_empty in E. contradiction. }
  destruct (Nat.lt_trichotomy i j) as [Hij|[Hij|Hij]]; auto.
  - subst j. rewrite Hi in Hj. injection Hj as <-. contradiction.
  - pose proof (strongly_sorted_nth _ _ _ Hsorted j i b a Hj Hi Hij) as Hle.
    unfold not_after in Hle. congruence.
Qed.

Lemma untitled_records_come_first_witness :
  map NodeInfo.title
      (nodes (extract_docs (__init__ "nodes")
                [Samples.file "a.py"
                   [Samples.unit_of_work "A" "a" "Apple" [];
                    ClassDef "U" []
                      [Call (Name "invocation") [Constant (CStr "u")]
                         [(Some "title", Name "TITLE")]]]]))
  = [""; "Apple"]
  /\ 0 < 1.
Proof.
  split; [reflexivity|].
  exact (untitled_records_come_first (__init__ "nodes")
           [Samples.file "a.py"
              [Samples.unit_of_work "A" "a" "Apple" [];
               ClassDef "U" []
                 [Call (Name "invocation") [Constant (CStr "u")]
                    [(Some "title", Name "TITLE")]]]]
           0 1 _ _ eq_refl eq_refl eq_refl
           (fun H => match H in _ = s
                           return match s with
                                  | EmptyString => False
                                  | String _ _ => True
                                  end
                     with eq_refl => I end)).
Defined.


